(** * celery worker core: ETA scheduler and control dispatch

    A shallow embedding of [celery/worker/scheduler.py],
    [celery/worker/control.py] and [celery/decorators.py], together
    with the part of Python's [heapq] module the scheduler calls, and
    the properties of the delayed-dispatch scheduler, of the control
    plane and of the task decorators proved over it. *)

From Stdlib Require Import ZArith Lia ZifyNat Sorted.
From stdpp Require Import base list gmap strings sorting.

Open Scope Z_scope.
Open Scope nat_scope.

(** ** Outcomes of Python calls *)

(** The exceptions the modelled code can raise. *)
Inductive exn :=
| IndexError
| KeyError
| AttributeError
| TypeError
| DanglingReference.

#[global] Instance exn_eq_dec : EqDecision exn.
Proof. solve_decision. Defined.

(** A call either returns a value or raises. *)
Inductive outcome (A : Type) :=
| Ret (a : A)
| Raise (e : exn).
Arguments Ret {A} a.
Arguments Raise {A} e.

(** ** heapq: the array heap of the Python standard library

    [heapq] keeps a binary min-heap in a Python list: the children of
    index [k] are at [2*k+1] and [2*k+2].  The functions below follow
    [heapq.py] statement by statement; the list is passed and returned
    since the Python functions update it in place. *)

Module Heapq.
Section Defs.
Context {A : Type}.
Variable le : A -> A -> bool.

(** The [while pos > startpos] loop of [_siftdown]: parents move down
    until [newitem] fits.  [pos] strictly decreases, so [pos] units of
    fuel are enough. *)
Fixpoint _siftdown_loop (fuel : nat) (heap : list A) (newitem : A)
    (startpos pos : nat) : list A :=
  match fuel with
  | O => <[pos := newitem]> heap
  | S fuel' =>
      if decide (startpos < pos) then
        let parentpos := (pos - 1) / 2 in
        match heap !! parentpos with
        | Some parent =>
            if le parent newitem then <[pos := newitem]> heap
            else _siftdown_loop fuel' (<[pos := parent]> heap) newitem
                                startpos parentpos
        | None => heap
        end
      else <[pos := newitem]> heap
  end.

Definition _siftdown (heap : list A) (startpos pos : nat) : list A :=
  match heap !! pos with
  | Some newitem => _siftdown_loop pos heap newitem startpos pos
  | None => heap
  end.

(** The [while childpos < endpos] loop of [_siftup]: the smaller child
    bubbles up until the hole reaches a leaf.  Returns the list and the
    final position of the hole. *)
Fixpoint _siftup_loop (fuel : nat) (heap : list A) (endpos pos : nat)
    : list A * nat :=
  match fuel with
  | O => (heap, pos)
  | S fuel' =>
      let childpos := 2 * pos + 1 in
      if decide (childpos < endpos) then
        let rightpos := childpos + 1 in
        let childpos :=
          if decide (rightpos < endpos) then
            match heap !! rightpos, heap !! childpos with
            | Some r, Some c => if le r c then rightpos else childpos
            | _, _ => childpos
            end
          else childpos in
        match heap !! childpos with
        | Some child =>
            _siftup_loop fuel' (<[pos := child]> heap) endpos childpos
        | None => (heap, pos)
        end
      else (heap, pos)
  end.

Definition _siftup (heap : list A) (pos : nat) : list A :=
  let endpos := length heap in
  let startpos := pos in
  match heap !! pos with
  | Some newitem =>
      let '(heap, pos) := _siftup_loop endpos heap endpos pos in
      let heap := <[pos := newitem]> heap in
      _siftdown heap startpos pos
  | None => heap
  end.

(** [heappush(heap, item)]: append, then sift the new leaf towards the
    root. *)
Definition heappush (heap : list A) (item : A) : list A :=
  let heap := heap ++ [item] in
  _siftdown heap 0 (length heap - 1).

(** [list.pop()]: remove and return the last element. *)
Definition list_pop (l : list A) : option (A * list A) :=
  match last l with
  | Some x => Some (x, take (length l - 1) l)
  | None => None
  end.

(** [heappop(heap)]: [None] stands for the [IndexError] that
    [heap.pop()] raises on an empty list. *)
Definition heappop (heap : list A) : option (A * list A) :=
  match list_pop heap with
  | None => None
  | Some (lastelt, heap) =>
      match heap with
      | returnitem :: _ =>
          let heap := <[0 := lastelt]> heap in
          Some (returnitem, _siftup heap 0)
      | [] => Some (lastelt, heap)
      end
  end.

(** The heap invariant of the module's documentation:
    [heap[k] <= heap[2*k+1]] and [heap[k] <= heap[2*k+2]]. *)
Definition heap_inv (heap : list A) : Prop :=
  forall i x p,
    0 < i -> heap !! i = Some x -> heap !! ((i - 1) / 2) = Some p ->
    le p x = true.

(** The list is heap ordered except around the hole at [pos]: every
    parent/child pair that avoids [pos] is ordered, and the parent of
    [pos] is below the children of [pos]. *)
Definition hole_inv (heap : list A) (pos : nat) : Prop :=
  (forall i x p,
      0 < i -> i <> pos -> (i - 1) / 2 <> pos ->
      heap !! i = Some x -> heap !! ((i - 1) / 2) = Some p ->
      le p x = true) /\
  (forall c x g,
      0 < pos -> 0 < c -> (c - 1) / 2 = pos ->
      heap !! c = Some x -> heap !! ((pos - 1) / 2) = Some g ->
      le g x = true).

(** [newitem] is below the children of [pos]. *)
Definition fits (heap : list A) (newitem : A) (pos : nat) : Prop :=
  forall c x,
    0 < c -> (c - 1) / 2 = pos -> heap !! c = Some x ->
    le newitem x = true.

End Defs.
End Heapq.

(** ** A state-and-exception monad for the Python code *)

Definition py (S A : Type) : Type := S -> outcome A * S.

Definition ret {S A} (a : A) : py S A := fun s => (Ret a, s).
Definition raise {S A} (e : exn) : py S A := fun s => (Raise e, s).
Definition bind {S A B} (c : py S A) (k : A -> py S B) : py S B :=
  fun s =>
    match c s with
    | (Ret a, s') => k a s'
    | (Raise e, s') => (Raise e, s')
    end.
Definition get {S} : py S S := fun s => (Ret s, s).
Definition modify {S} (f : S -> S) : py S unit := fun s => (Ret tt, f s).

Notation "'let*' x ':=' c 'in' k" := (bind c (fun x => k))
  (at level 10, x pattern, c at level 100, k at level 200).
Notation "c ';;' k" := (bind c (fun _ => k))
  (at level 100, k at level 200, right associativity).

(** [map(f, xs)] of Python 2: [f] is applied to the elements from left
    to right and the results are collected in a list. *)
Fixpoint mapM {S A B} (f : A -> py S B) (xs : list A) : py S (list B) :=
  match xs with
  | [] => ret []
  | x :: xs' =>
      let* y := f x in
      let* ys := mapM f xs' in
      ret (y :: ys)
  end.

(** ** celery/worker/scheduler.py *)

(** References to Python list objects. *)
Definition loc := nat.

(** Timestamps as returned by [time.time()], counted in microseconds. *)
Definition timestamp := Z.

(** A [datetime.datetime], as the number of microseconds since the
    epoch (the zone offset of naive local times is taken to be zero). *)
Definition datetime := Z.

(** [time.mktime(eta.timetuple())]: a time tuple has no field below the
    second, so the microseconds of [eta] are dropped. *)
Definition mktime_timetuple (d : datetime) : timestamp :=
  (d / 1000000 * 1000000)%Z.

(** The tuple [(eta, priority, item, callback)] that [enter] pushes.
    [ev_id] is the identity of the tuple object (what [is] compares);
    items and callbacks are opaque objects, named by numbers, and
    ordered as Python 2 orders objects without a comparison of their
    own: consistently, with [None] below everything else. *)
Record event := Event {
  ev_id : nat;
  ev_eta : timestamp;
  ev_priority : Z;
  ev_item : nat;
  ev_callback : option nat
}.

Definition callback_le (a b : option nat) : bool :=
  match a, b with
  | None, _ => true
  | Some _, None => false
  | Some x, Some y => x <=? y
  end.

(** [a <= b] on tuples: the first pair of fields that differ decides. *)
Definition tuple_le (a b : event) : bool :=
  if negb (ev_eta a =? ev_eta b)%Z then (ev_eta a <=? ev_eta b)%Z
  else if negb (ev_priority a =? ev_priority b)%Z
       then (ev_priority a <=? ev_priority b)%Z
  else if negb (ev_item a =? ev_item b) then ev_item a <=? ev_item b
  else callback_le (ev_callback a) (ev_callback b).

(** [a is b] on tuples. *)
Definition is_ (a b : event) : bool := ev_id a =? ev_id b.

(** The part of the interpreter state the scheduler touches: the list
    objects, the ready queue it was given, and the callbacks it has
    called.  [promoted] is a history variable: it records each
    promotion with the clock value read by the call that made it, and
    nothing reads it. *)
Record world := World {
  lists : gmap loc (list event);
  next_id : nat;
  ready : list nat;
  called : list nat;
  promoted : list (event * timestamp)
}.

Definition set_lists (f : gmap loc (list event) -> gmap loc (list event))
    (w : world) : world :=
  World (f (lists w)) (next_id w) (ready w) (called w)
        (promoted w).

(** A new list object, at a reference not in use, holding [l]: [[]] or
    [list(l)]. *)
Definition alloc_list (l : list event) : py world loc :=
  fun w =>
    let r := fresh (dom (lists w)) in
    (Ret r,
     World (<[r := l]> (lists w)) (next_id w) (ready w) (called w)
           (promoted w)).

Definition read_list (r : loc) : py world (list event) :=
  fun w =>
    match lists w !! r with
    | Some l => (Ret l, w)
    | None => (Raise DanglingReference, w)
    end.

Definition write_list (r : loc) (l : list event) : py world unit :=
  modify (set_lists <[r := l]>).

(** A fresh tuple object. *)
Definition new_tuple (eta : timestamp) (priority : Z) (item : nat)
    (callback : option nat) : py world event :=
  fun w =>
    (Ret (Event (next_id w) eta priority item callback),
     World (lists w) (S (next_id w)) (ready w) (called w)
           (promoted w)).

(** [heapq.heappush(q, x)] and [heapq.heappop(q)] on a list object. *)
Definition heappush (q : loc) (x : event) : py world unit :=
  let* l := read_list q in
  write_list q (Heapq.heappush tuple_le l x).

Definition heappop (q : loc) : py world event :=
  let* l := read_list q in
  match Heapq.heappop tuple_le l with
  | Some (x, l') => write_list q l';; ret x
  | None => raise IndexError
  end.

(** [ready_queue.put(item)]; the queue is taken to be unbounded, so
    [put] returns at once. *)
Definition ready_queue_put (item : nat) : py world unit :=
  modify (fun w => World (lists w) (next_id w)
                         (ready w ++ [item]) (called w) (promoted w)).

(** [callback and callback()]: a callback is an opaque action, taken to
    return without touching the scheduler; the call is recorded. *)
Definition call_callback (callback : option nat) : py world unit :=
  match callback with
  | Some c =>
      modify (fun w => World (lists w) (next_id w) (ready w)
                             (called w ++ [c]) (promoted w))
  | None => ret tt
  end.

Definition note_promotion (e : event) (now : timestamp) : py world unit :=
  modify (fun w => World (lists w) (next_id w) (ready w)
                         (called w) (promoted w ++ [(e, now)])).

Record Scheduler := { _queue : loc }.

(** [Scheduler.__init__]. *)
Definition Scheduler__init__ : py world Scheduler :=
  let* q := alloc_list [] in
  ret {| _queue := q |}.

(** [Scheduler.enter]; [clock] is what [time.time()] returns if
    called. *)
Definition enter (self : Scheduler) (item : nat) (eta : option datetime)
    (priority : Z) (callback : option nat) (clock : timestamp)
    : py world unit :=
  let eta := match eta with
             | Some d => mktime_timetuple d
             | None => clock
             end in
  let* t := new_tuple eta priority item callback in
  heappush (_queue self) t.

(** What one [next()] on the iterator yields: [None] or a number. *)
Inductive hint :=
| NoHint
| Sleep (seconds : Z).

(** Where the generator made by [Scheduler.__iter__] is suspended. *)
Inductive gen_pc :=
| GenStart
| AtYieldRemaining
| AtYieldZero
| AtYieldNone.

Record generator := { g_self : Scheduler; g_pc : gen_pc }.

Definition Scheduler__iter__ (self : Scheduler) : generator :=
  {| g_self := self; g_pc := GenStart |}.

(** One pass through the body of [while True], from its top to the
    first [yield] reached. *)
Definition loop_body (q : loc) (clock : timestamp)
    : py world (hint * gen_pc) :=
  let* l := read_list q in
  match l with
  | verify :: _ =>
      let now := clock in
      if (now <? ev_eta verify)%Z then
        ret (Sleep (ev_eta verify - now), AtYieldRemaining)
      else
        let* event := heappop q in
        if is_ event verify then
          ready_queue_put (ev_item verify);;
          note_promotion verify now;;
          call_callback (ev_callback verify);;
          ret (Sleep 0, AtYieldZero)
        else
          heappush q event;;
          ret (NoHint, AtYieldNone)
  | [] => ret (NoHint, AtYieldNone)
  end.

(** [next()] on the generator: resume after the last [yield] and run to
    the next one.  After [yield eta - now] and after [yield 0] the next
    statement is the [yield None] that ends the loop body. *)
Definition next (g : generator) (clock : timestamp)
    : py world (hint * generator) :=
  match g_pc g with
  | GenStart | AtYieldNone =>
      let* (h, pc) := loop_body (_queue (g_self g)) clock in
      ret (h, {| g_self := g_self g; g_pc := pc |})
  | AtYieldRemaining | AtYieldZero =>
      ret (NoHint, {| g_self := g_self g; g_pc := AtYieldNone |})
  end.

(** [Scheduler.empty]. *)
Definition empty (self : Scheduler) : py world bool :=
  let* l := read_list (_queue self) in
  ret (match l with [] => true | _ => false end).

(** The [Scheduler.queue] property: [events] is one new list object and
    [[events]*len(events)] holds that many references to it. *)
Definition queue (self : Scheduler) : py world (list event) :=
  let* l := read_list (_queue self) in
  let* events := alloc_list l in
  let* n := (let* l := read_list events in ret (length l)) in
  mapM heappop (replicate n events).

(** *** Driving the scheduler

    A worker owns one scheduler and one iterator over it; producers
    call [enter] and the polling loop calls [next].  Each call comes
    with the value of the clock at that call. *)
Record system := System {
  sched : Scheduler;
  driver : generator;
  wld : world
}.

Inductive call :=
| CallEnter (item : nat) (eta : option datetime) (priority : Z)
            (callback : option nat)
| CallNext
| CallEmpty
| CallQueue.

(** What the caller gets back from a call. *)
Inductive result :=
| Entered
| Yielded (h : hint)
| IsEmpty (b : bool)
| Snapshot (events : list event).

Definition empty_world : world := World ∅ 0 [] [] [].

Definition boot : outcome system :=
  match Scheduler__init__ empty_world with
  | (Ret s, w) => Ret (System s (Scheduler__iter__ s) w)
  | (Raise e, _) => Raise e
  end.

Definition step (c : call) (clock : timestamp) (s : system)
    : outcome (result * system) :=
  match c with
  | CallEnter item eta priority callback =>
      match enter (sched s) item eta priority callback clock (wld s) with
      | (Ret _, w) => Ret (Entered, System (sched s) (driver s) w)
      | (Raise e, _) => Raise e
      end
  | CallNext =>
      match next (driver s) clock (wld s) with
      | (Ret (h, g), w) => Ret (Yielded h, System (sched s) g w)
      | (Raise e, _) => Raise e
      end
  | CallEmpty =>
      match empty (sched s) (wld s) with
      | (Ret b, w) => Ret (IsEmpty b, System (sched s) (driver s) w)
      | (Raise e, _) => Raise e
      end
  | CallQueue =>
      match queue (sched s) (wld s) with
      | (Ret l, w) => Ret (Snapshot l, System (sched s) (driver s) w)
      | (Raise e, _) => Raise e
      end
  end.

(** A sequence of calls, each with its clock value; the results are
    collected in order. *)
Fixpoint run (calls : list (call * timestamp)) (s : system)
    : outcome (list result * system) :=
  match calls with
  | [] => Ret ([], s)
  | (c, clock) :: rest =>
      match step c clock s with
      | Ret (r, s') =>
          match run rest s' with
          | Ret (rs, s'') => Ret (r :: rs, s'')
          | Raise e => Raise e
          end
      | Raise e => Raise e
      end
  end.

Definition run_from_boot (calls : list (call * timestamp))
    : outcome (list result * system) :=
  match boot with
  | Ret s => run calls s
  | Raise e => Raise e
  end.

(** The frontier: the contents of the scheduler's list. *)
Definition frontier (s : system) : list event :=
  default [] (lists (wld s) !! _queue (sched s)).

(** The events that have been promoted, oldest first. *)
Definition promoted_events (s : system) : list event :=
  (promoted (wld s)).*1.

(** The tuples the [enter] calls of a trace create, given the identity
    of the first one. *)
Fixpoint entered_from (n : nat) (calls : list (call * timestamp))
    : list event :=
  match calls with
  | [] => []
  | (CallEnter item eta priority callback, clock) :: rest =>
      Event n (match eta with
               | Some d => mktime_timetuple d
               | None => clock
               end) priority item callback
        :: entered_from (S n) rest
  | _ :: rest => entered_from n rest
  end.

(** The order of the keys [(due_time, priority)]. *)
Definition key_lt (a b : event) : Prop :=
  (ev_eta a < ev_eta b)%Z \/
  (ev_eta a = ev_eta b /\ (ev_priority a < ev_priority b)%Z).

Definition key_le (a b : event) : Prop :=
  (ev_eta a < ev_eta b)%Z \/
  (ev_eta a = ev_eta b /\ (ev_priority a <= ev_priority b)%Z).

(** A state the worker can be in: the iterator belongs to the
    scheduler, and the scheduler's list exists and is a heap. *)
Definition wf (s : system) : Prop :=
  g_self (driver s) = sched s /\
  exists q, lists (wld s) !! _queue (sched s) = Some q /\
            Heapq.heap_inv tuple_le q.

(** The callbacks called when the events [l] are promoted. *)
Definition callbacks_of (l : list event) : list nat :=
  omap ev_callback l.

(** What a call may do to the frontier and to the ready queue.  A call
    that promotes nothing leaves what the scheduler holds as it was. *)
Definition same_contents (s s' : system) : Prop :=
  frontier s' = frontier s /\
  promoted (wld s') = promoted (wld s) /\
  ready (wld s') = ready (wld s) /\
  called (wld s') = called (wld s) /\
  next_id (wld s') = next_id (wld s).

Inductive effect (s : system) (clock : timestamp)
    : call -> result -> system -> Prop :=
| effect_enter item eta priority callback s' :
    frontier s' ≡ₚ
      Event (next_id (wld s))
            (match eta with
             | Some d => mktime_timetuple d
             | None => clock
             end) priority item callback :: frontier s ->
    promoted (wld s') = promoted (wld s) ->
    ready (wld s') = ready (wld s) ->
    called (wld s') = called (wld s) ->
    next_id (wld s') = S (next_id (wld s)) ->
    driver s' = driver s ->
    effect s clock (CallEnter item eta priority callback) Entered s'
| effect_idle h s' :
    same_contents s s' ->
    effect s clock CallNext (Yielded h) s'
| effect_promote verify s' :
    frontier s !! 0 = Some verify ->
    verify :: frontier s' ≡ₚ frontier s ->
    (forall x, x ∈ frontier s -> tuple_le verify x = true) ->
    (ev_eta verify <= clock)%Z ->
    promoted (wld s') = promoted (wld s) ++ [(verify, clock)] ->
    ready (wld s') = ready (wld s) ++ [ev_item verify] ->
    called (wld s') = called (wld s) ++ callbacks_of [verify] ->
    next_id (wld s') = next_id (wld s) ->
    effect s clock CallNext (Yielded (Sleep 0)) s'
| effect_empty s' :
    same_contents s s' -> driver s' = driver s ->
    effect s clock CallEmpty
           (IsEmpty (match frontier s with [] => true | _ => false end)) s'
| effect_queue out s' :
    same_contents s s' -> driver s' = driver s ->
    out ≡ₚ frontier s ->
    StronglySorted (fun a b => tuple_le a b = true) out ->
    effect s clock CallQueue (Snapshot out) s'.

(** How the state [s'] reached from [s] by [calls] relates to [s]:
    every tuple held or entered is in the frontier or has been
    promoted, the ready queue received the items of the tuples promoted
    in between, in order, and none of them before its time. *)
Definition history (s : system) (calls : list (call * timestamp))
    (s' : system) : Prop :=
  frontier s' ++ promoted_events s' ≡ₚ
    (frontier s ++ promoted_events s)
      ++ entered_from (next_id (wld s)) calls /\
  next_id (wld s') =
    next_id (wld s) + length (entered_from (next_id (wld s)) calls) /\
  exists news,
    promoted (wld s') = promoted (wld s) ++ news /\
    ready (wld s') = ready (wld s) ++ (ev_item <$> news.*1) /\
    called (wld s') = called (wld s) ++ callbacks_of news.*1 /\
    Forall (fun p => (ev_eta p.1 <= p.2)%Z) news.

#[global] Instance event_eq_dec : EqDecision event.
Proof. solve_decision. Defined.

(** [a] was promoted before [b]. *)
Definition promoted_before (a b : event) (s : system) : Prop :=
  exists pre mid post, promoted_events s = pre ++ a :: mid ++ b :: post.

(** Where two entries of the frontier can be later on: both still
    waiting, the first promoted and the second waiting, or both
    promoted in that order. *)
Definition order_state (a b : event) (s : system) : Prop :=
  (a ∈ frontier s /\ b ∈ frontier s) \/
  (a ∈ promoted_events s /\ b ∈ frontier s) \/
  promoted_before a b s.

(** What [queue] returns for a frontier [l], as a function of [l]:
    the elements popped one after the other. *)
Fixpoint drain (n : nat) (l : list event) : list event :=
  match n with
  | O => []
  | S n' =>
      match Heapq.heappop tuple_le l with
      | Some (x, l') => x :: drain n' l'
      | None => []
      end
  end.

(** Two states the scheduler cannot tell apart: they differ at most in
    list objects other than the scheduler's own. *)
Definition same_view (s s' : system) : Prop :=
  sched s' = sched s /\ driver s' = driver s /\ same_contents s s'.

(** Where a [next()] starts: at the top of the loop, or after a [yield]
    of a sleeping time. *)
Definition at_top (s : system) : Prop :=
  g_pc (driver s) = GenStart \/ g_pc (driver s) = AtYieldNone.

Definition after_hint (s : system) : Prop :=
  g_pc (driver s) = AtYieldRemaining \/ g_pc (driver s) = AtYieldZero.


(** *** A small schedule, for examples

    Two entries, the second due before the first, and clock values
    after both due times. *)
Definition two_entries : list (call * timestamp) :=
  [(CallEnter 1 (Some 5000000%Z) 0%Z None, 0%Z);
   (CallEnter 2 (Some 3000000%Z) 0%Z None, 0%Z)].

Definition four_nexts : list (call * timestamp) :=
  (fun t => (CallNext, t)) <$> replicate 4 6000000%Z.

(** *** More vocabulary for the scheduler *)

(** [iter(schedule).next()]: a new iterator for every call, as a caller
    that does not keep the iterator does. *)
Definition iter_next (self : Scheduler) (clock : timestamp)
    : py world hint :=
  let* (h, _) := next (Scheduler__iter__ self) clock in
  ret h.

(** A call other than [enter]. *)
Definition is_enter (c : call) : bool :=
  match c with
  | CallEnter _ _ _ _ => true
  | _ => false
  end.

(** The entries promoted so far are in ascending order and below
    everything still in the frontier. *)
Definition promoted_in_order (news : list event) (s : system) : Prop :=
  StronglySorted (fun a b => tuple_le a b = true) news /\
  forall x y, x ∈ news -> y ∈ frontier s -> tuple_le x y = true.

(** *** The due times the callers asked for *)

(** The [enter] calls of a trace in order, each with its item, the eta
    given and the clock of the call.  The tuple with identity [n] is
    the one the [n]-th of them makes. *)
Fixpoint enter_calls (calls : list (call * timestamp))
    : list (nat * option datetime * timestamp) :=
  match calls with
  | [] => []
  | (CallEnter item eta _ _, clock) :: rest =>
      (item, eta, clock) :: enter_calls rest
  | _ :: rest => enter_calls rest
  end.

(** The due time the caller of [enter] asked for the tuple [e]: the eta
    given, or the time of the call when there was none. *)
Definition due_time_given (calls : list (call * timestamp)) (e : event)
    : option timestamp :=
  match enter_calls calls !! ev_id e with
  | Some (_, Some d, _) => Some d
  | Some (_, None, clock) => Some clock
  | None => None
  end.

(** The promotion of the tuple [p.1] at the clock [p.2] is not early
    for the [enter] call that made the tuple: the second the eta given
    falls in has begun, so the eta is less than a second away; without
    an eta, the time of the call has been reached. *)
Definition not_early (calls : list (call * timestamp))
    (p : event * timestamp) : Prop :=
  exists item eta clock,
    enter_calls calls !! ev_id p.1 = Some (item, eta, clock) /\
    ev_item p.1 = item /\
    match eta with
    | Some d => (d / 1000000 * 1000000 <= p.2)%Z /\ (d - 1000000 < p.2)%Z
    | None => (clock <= p.2)%Z
    end.

(** The due time [enter] stores for the tuple [e], in terms of the
    call that made it: the eta cut to the whole second, or the time of
    the call. *)
Definition stored_due_time (calls : list (call * timestamp)) (e : event)
    : Prop :=
  exists item eta clock,
    enter_calls calls !! ev_id e = Some (item, eta, clock) /\
    ev_item e = item /\
    ev_eta e = match eta with
               | Some d => (d / 1000000 * 1000000)%Z
               | None => clock
               end.

(** The item of [a] was put on the ready queue before the item of
    [b]. *)
Definition put_before (a b : event) (s : system) : Prop :=
  exists pre mid post,
    promoted_events s = pre ++ a :: mid ++ b :: post /\
    ready (wld s) =
      (ev_item <$> pre) ++ ev_item a :: (ev_item <$> mid)
        ++ ev_item b :: (ev_item <$> post).

(** ** celery/worker/control.py *)

(** The values a control message carries: [None], numbers and
    strings. *)
Inductive value :=
| VNone
| VInt (z : Z)
| VStr (s : string).

#[global] Instance value_eq_dec : EqDecision value.
Proof. solve_decision. Defined.

#[global] Instance value_countable : Countable value.
Proof.
  refine (inj_countable'
            (fun v => match v with
                      | VNone => inl ()
                      | VInt z => inr (inl z)
                      | VStr s => inr (inr s)
                      end)
            (fun x => match x with
                      | inl _ => VNone
                      | inr (inl z) => VInt z
                      | inr (inr s) => VStr s
                      end) _).
  by intros [].
Defined.

(** Truth value of an object: [None], [0] and the empty string are
    false. *)
Definition truthy (v : value) : bool :=
  match v with
  | VNone => false
  | VInt z => negb (z =? 0)%Z
  | VStr s => negb (String.eqb s "")
  end.

(** [a == b]. *)
Definition value_eqb (a b : value) : bool := bool_decide (a = b).

(** A call of [logger.warn] or [logger.error]: the format string and
    the values it is applied to with [%]. *)
Inductive level := WARNING | ERROR.

Record log_record := LogRecord {
  levelname : level;
  msg : string;
  args : list value
}.

(** A task type: [rate_limit] is the attribute the control panel
    changes; [other] stands for the rest of its configuration. *)
Record task := Task {
  name : string;
  rate_limit : value;
  other : nat
}.

(** The part of the interpreter state the control plane touches: the
    dict objects (messages), the task objects, the two module-level
    containers, the log and the name [socket.gethostname()] returns. *)
Record cworld := CWorld {
  dicts : gmap loc (gmap string value);
  objects : gmap loc task;
  tasks : gmap string loc;
  revoked : gset value;
  log : list log_record;
  gethostname : string
}.

Definition set_dicts (f : gmap loc (gmap string value) ->
                          gmap loc (gmap string value)) (w : cworld)
    : cworld :=
  CWorld (f (dicts w)) (objects w) (tasks w) (revoked w)
         (log w) (gethostname w).

(** [try: c except e: handler]. *)
Definition try_except {S A} (c : py S A) (e : exn) (handler : py S A)
    : py S A :=
  fun s =>
    match c s with
    | (Ret a, s') => (Ret a, s')
    | (Raise e', s') =>
        if bool_decide (e' = e) then handler s' else (Raise e', s')
    end.

(** [dict(d)]: a new dict object, at a reference not in use, with the
    items of [d]. *)
Definition dict_copy (d : loc) : py cworld loc :=
  fun w =>
    match dicts w !! d with
    | Some m =>
        let r := fresh (dom (dicts w)) in
        (Ret r,
         CWorld (<[r := m]> (dicts w)) (objects w) (tasks w) (revoked w)
                (log w) (gethostname w))
    | None => (Raise DanglingReference, w)
    end.

Definition read_dict (d : loc) : py cworld (gmap string value) :=
  fun w =>
    match dicts w !! d with
    | Some m => (Ret m, w)
    | None => (Raise DanglingReference, w)
    end.

(** [d.pop(key)]: remove [key] and return its value; [KeyError] if it
    is missing. *)
Definition dict_pop (d : loc) (key : string) : py cworld value :=
  let* m := read_dict d in
  match m !! key with
  | Some v => modify (set_dicts <[d := delete key m]>);; ret v
  | None => raise KeyError
  end.

(** [d.pop(key, default)]. *)
Definition dict_pop_default (d : loc) (key : string) (default : value)
    : py cworld value :=
  let* m := read_dict d in
  match m !! key with
  | Some v => modify (set_dicts <[d := delete key m]>);; ret v
  | None => ret default
  end.

(** Modelled from the spec: [celery.worker.revoke.revoked], the
    RevocationSet, is a set of task ids; [add] inserts an id and is
    idempotent, and membership is the only query. *)
Definition revoked_add (task_id : value) : py cworld unit :=
  modify (fun w => CWorld (dicts w) (objects w) (tasks w)
                          ({[task_id]} ∪ revoked w) (log w)
                          (gethostname w)).

(** Modelled from the spec: [celery.registry.tasks], the
    TaskTypeRegistry, maps the name of a task type to its descriptor, a
    shared object; looking up a name that is not registered gives
    not-found, which [tasks[name]] reports as a [KeyError]. *)
Definition tasks_getitem (task_name : value) : py cworld loc :=
  fun w =>
    match task_name with
    | VStr n =>
        match tasks w !! n with
        | Some t => (Ret t, w)
        | None => (Raise KeyError, w)
        end
    | _ => (Raise KeyError, w)
    end.

(** [t.rate_limit = v] on a task object. *)
Definition set_rate_limit (t : loc) (v : value) : py cworld unit :=
  fun w =>
    match objects w !! t with
    | Some o =>
        (Ret tt,
         CWorld (dicts w)
                (<[t := Task (name o) v (other o)]> (objects w))
                (tasks w) (revoked w) (log w) (gethostname w))
    | None => (Raise DanglingReference, w)
    end.

Definition logger_log (l : level) (fmt : string) (a : list value)
    : py cworld unit :=
  modify (fun w => CWorld (dicts w) (objects w) (tasks w)
                          (revoked w) (log w ++ [LogRecord l fmt a])
                          (gethostname w)).

Definition logger_warn := logger_log WARNING.
Definition logger_error := logger_log ERROR.

(** *** class Control *)

Record Control := { panel_hostname : value }.

(** [Control.__init__]: [hostname or socket.gethostname()]. *)
Definition Control__init__ (hostname : value) : py cworld Control :=
  let* w := get in
  ret {| panel_hostname :=
           if truthy hostname then hostname else VStr (gethostname w) |}.

(** [Control.revoke(self, task_id, **kwargs)]. *)
Definition Control_revoke (self : Control) (task_id : value)
    (kwargs : gmap string value) : py cworld value :=
  revoked_add task_id;;
  logger_warn "Task %s revoked." [task_id];;
  ret VNone.

(** [Control.rate_limit(self, task_name, rate_limit, **kwargs)]. *)
Definition Control_rate_limit (self : Control) (task_name rate_limit : value)
    (kwargs : gmap string value) : py cworld value :=
  let* registered :=
    try_except
      (let* t := tasks_getitem task_name in
       set_rate_limit t rate_limit;;
       ret true)
      KeyError
      (ret false) in
  if registered : bool then
    (if negb (truthy rate_limit) then
       logger_warn "Disabled rate limits for tasks of type %s" [task_name]
     else
       logger_warn "New rate limit for tasks of type %s: %s."
                   [task_name; rate_limit]);;
    ret VNone
  else ret VNone.

(** The code of the two methods the panel offers as commands. *)
Inductive handler := Hrevoke | Hrate_limit.

(** A function object: its code and the attribute [exposed], when it
    has been set. *)
Record function := Function {
  func_code : handler;
  exposed : option bool
}.

(** [expose(fun)]: [fun.exposed = True; return fun]. *)
Definition expose (f : function) : function :=
  Function (func_code f) (Some true).

(** The two methods as [class Control] defines them: [def] makes the
    function and the decorator [@expose] marks it. *)
Definition Control_revoke_function : function :=
  expose (Function Hrevoke None).

Definition Control_rate_limit_function : function :=
  expose (Function Hrate_limit None).

(** Calling a bound method of the panel with the keyword arguments
    [kwargs]: the named parameters are taken from [kwargs], the rest
    goes to the method's own keyword dictionary; a missing parameter,
    or a second value for [self], is a [TypeError]. *)
Definition call_handler (self : Control) (h : handler)
    (kwargs : gmap string value) : py cworld value :=
  if bool_decide (is_Some (kwargs !! "self")) then raise TypeError
  else
    match h with
    | Hrevoke =>
        match kwargs !! "task_id" with
        | Some task_id =>
            Control_revoke self task_id (delete "task_id" kwargs)
        | None => raise TypeError
        end
    | Hrate_limit =>
        match kwargs !! "task_name", kwargs !! "rate_limit" with
        | Some task_name, Some rate_limit =>
            Control_rate_limit self task_name rate_limit
              (delete "task_name" (delete "rate_limit" kwargs))
        | _, _ => raise TypeError
        end
    end.

(** What [getattr(self.panel, name)] can return: a bound method made
    from a function of the class, [None], or some other object.  The
    other objects are [__init__], the logger, the hostname and what
    [object] provides: none of them has an attribute [exposed]. *)
Inductive attribute :=
| BoundMethod (f : function)
| NoneObject
| OtherObject.

(** The names Python 2.6 gives every instance of a new-style class. *)
Definition object_attributes : list string :=
  ["__class__"; "__delattr__"; "__dict__"; "__doc__"; "__format__";
   "__getattribute__"; "__hash__"; "__module__"; "__new__"; "__reduce__";
   "__reduce_ex__"; "__repr__"; "__setattr__"; "__sizeof__"; "__str__";
   "__subclasshook__"].

(** The attributes of a [Control] instance: the two methods of the
    class; [__init__] and the instance attributes [logger] and
    [hostname]; [__weakref__], which is [None]; and what [object]
    provides. *)
Definition Control_attribute (attr : string) : option attribute :=
  if bool_decide (attr = "revoke")
  then Some (BoundMethod Control_revoke_function)
  else if bool_decide (attr = "rate_limit")
  then Some (BoundMethod Control_rate_limit_function)
  else if bool_decide (attr = "__init__") then Some OtherObject
  else if bool_decide (attr = "logger") then Some OtherObject
  else if bool_decide (attr = "hostname") then Some OtherObject
  else if bool_decide (attr = "__weakref__") then Some NoneObject
  else if bool_decide (attr ∈ object_attributes) then Some OtherObject
  else None.

(** [getattr(panel, command)]: the name must be a string. *)
Definition getattr (panel : Control) (command : value)
    : py cworld attribute :=
  match command with
  | VStr attr =>
      match Control_attribute attr with
      | Some a => ret a
      | None => raise AttributeError
      end
  | _ => raise TypeError
  end.

(** [control.exposed]: a bound method has the attributes of its
    function. *)
Definition get_exposed (control : attribute) : py cworld bool :=
  match control with
  | BoundMethod f =>
      match exposed f with
      | Some e => ret e
      | None => raise AttributeError
      end
  | NoneObject | OtherObject => raise AttributeError
  end.

(** Calling [control] with the keyword arguments of the dict object
    [kwargs]. *)
Definition call_with_kwargs (self : Control) (control : attribute)
    (kwargs : loc) : py cworld value :=
  match control with
  | BoundMethod f =>
      let* kw := read_dict kwargs in
      call_handler self (func_code f) kw
  | NoneObject | OtherObject => raise TypeError
  end.

(** *** class ControlDispatch *)

Record ControlDispatch := {
  hostname : value;
  panel : Control
}.

(** [ControlDispatch.__init__]. *)
Definition ControlDispatch__init__ (hostname : value)
    : py cworld ControlDispatch :=
  let* panel := Control__init__ hostname in
  ret {| hostname := hostname; panel := panel |}.

(** [ControlDispatch.execute(command, kwargs)]; [kwargs] is a dict
    object.  [control] starts as [None] and stays so when [getattr]
    raises [AttributeError]; [control.exposed] is read only when
    [control] is not [None]. *)
Definition execute (self : ControlDispatch) (command : value)
    (kwargs : loc) : py cworld value :=
  let* control :=
    try_except (getattr (panel self) command) AttributeError
               (ret NoneObject) in
  let* unavailable :=
    match control with
    | NoneObject => ret true
    | _ => let* e := get_exposed control in ret (negb e)
    end in
  if unavailable : bool then
    logger_error "No such control command: %s" [command];;
    ret VNone
  else call_with_kwargs (panel self) control kwargs.

(** [ControlDispatch.dispatch_from_message(message)]; [message] is a
    dict object. *)
Definition dispatch_from_message (self : ControlDispatch) (message : loc)
    : py cworld value :=
  let* message := dict_copy message in
  let* command := dict_pop message "command" in
  let* destination := dict_pop_default message "destination" VNone in
  if negb (truthy destination) || value_eqb destination (hostname self)
  then execute self command message
  else ret VNone.

(** *** A worker and some messages, for examples *)

Definition this_host : ControlDispatch :=
  {| hostname := VStr "this-host";
     panel := {| panel_hostname := VStr "this-host" |} |}.

Definition world_with (message : gmap string value) : cworld :=
  CWorld {[ 0 := message ]} ∅ ∅ ∅ [] "this-host".

Definition revoke_X_for (destination : string) : gmap string value :=
  {[ "command" := VStr "revoke"; "destination" := VStr destination;
     "task_id" := VStr "X" ]}.

(** A registry with one task type, ["tasks.add"], without rate
    limit. *)
Definition world_with_task : cworld :=
  CWorld ∅ {[ 0 := Task "tasks.add" VNone 0 ]} {[ "tasks.add" := 0 ]} ∅ []
         "this-host".

(** *** More vocabulary for the control plane *)

(** What a control command may do to the worker's state, at most: the
    registry keeps its names and its task objects, which keep their
    [name] and the rest of their configuration; no task id leaves the
    set of revoked tasks; at most one record is appended to the log. *)
Definition control_frame (w w' : cworld) : Prop :=
  tasks w' = tasks w /\
  gethostname w' = gethostname w /\
  dom (objects w') = dom (objects w) /\
  (forall t o, objects w !! t = Some o ->
     exists o', objects w' !! t = Some o' /\
                name o' = name o /\ other o' = other o) /\
  revoked w ⊆ revoked w' /\
  exists new, log w' = log w ++ new /\ length new <= 1.

(** A message is for the dispatcher [self] when its destination is
    missing or false, or is the dispatcher's hostname. *)
Definition addressed_to (self : ControlDispatch)
    (d : gmap string value) : bool :=
  let destination := default VNone (d !! "destination") in
  negb (truthy destination) || value_eqb destination (hostname self).

(** ** celery/decorators.py *)

Module Decorators.

(** The classes a task class can be derived from: [Task] and
    [PeriodicTask] of [celery.task.base], and classes of the caller. *)
Inductive class_ref :=
| Task
| PeriodicTask
| UserClass (n : nat).

(** [inspect.getargspec]'s result for a function. *)
Record ArgSpec := {
  args : list string;
  varargs : option string;
  keywords : option string
}.

(** A function defined with [def]: the callable that is decorated. *)
Record pyfunction := {
  __name__ : string;
  __module__ : string;
  func_argspec : ArgSpec;
  func_id : nat
}.

(** The inner function [run] of [_create_task_cls]: it calls [fun]
    without [self], and carries [__name__] and [argspec]. *)
Record run_function := {
  run__name__ : string;
  run_argspec : ArgSpec;
  run_fun : pyfunction
}.

(** The objects found as values of options and of class
    dictionaries. *)
Inductive object :=
| ONone
| OInt (z : Z)
| OStr (s : string)
| OClass (c : class_ref)
| ORun (r : run_function).

(** The dict objects: option dictionaries and class dictionaries. *)
Abbreviation store := (gmap loc (gmap string object)).

(** A new dict object with the items [m]: the dictionary a call
    collects its keyword arguments in, or [dict(...)]. *)
Definition dict_new (m : gmap string object) : py store loc :=
  fun w => let r := fresh (dom w) in (Ret r, <[r := m]> w).

Definition read_dict (d : loc) : py store (gmap string object) :=
  fun w =>
    match w !! d with
    | Some m => (Ret m, w)
    | None => (Raise DanglingReference, w)
    end.

(** [dict(d)]. *)
Definition dict_copy (d : loc) : py store loc :=
  let* m := read_dict d in
  dict_new m.

(** [d.pop(key, default)]. *)
Definition dict_pop_default (d : loc) (key : string) (default : object)
    : py store object :=
  let* m := read_dict d in
  match m !! key with
  | Some v => modify <[d := delete key m]>;; ret v
  | None => ret default
  end.

(** [d[key] = v]. *)
Definition dict_setitem (d : loc) (key : string) (v : object)
    : py store unit :=
  let* m := read_dict d in
  modify <[d := <[key := v]> m]>.

(** [getargspec(fun)] for a function defined with [def]. *)
Definition getargspec (f : pyfunction) : ArgSpec := func_argspec f.

(** The arguments of a call [type(name, (base, ), dict)]: they
    describe the class that is made. *)
Record class_desc := {
  cls_name : string;
  cls_base : class_ref;
  cls_dict : gmap string object
}.

(** An instance of a class made by [type]. *)
Record instance := { instance_of : class_desc }.

(** A decorator returned by [task]: the closure [_create_task_cls],
    which refers to the dict object [options] of the call of [task]
    that made it. *)
Record decorator := { options : loc }.

Section Constructor.

(** The metaclass and the constructor of [Task] are defined in
    [celery.task.base]; what is used of them is whether making and
    instantiating a class raises. *)
Variable constructor_raises : class_desc -> option exn.

(** Making the class [cls] and an instance of it. *)
Definition construct (cls : class_desc) : outcome instance :=
  match constructor_raises cls with
  | Some e => Raise e
  | None => Ret {| instance_of := cls |}
  end.

(** [type(cls_name, (base, ), cls_dict)()]: the bases of a class must
    be classes. *)
Definition type_call (name : string) (base : object) (d : loc)
    : py store instance :=
  let* attrs := read_dict d in
  match base with
  | OClass c =>
      fun w =>
        (construct {| cls_name := name; cls_base := c; cls_dict := attrs |},
         w)
  | _ => raise TypeError
  end.

(** [_create_task_cls(fun)], the closure over [options]. *)
Definition _create_task_cls (self : decorator) (f : pyfunction)
    : py store instance :=
  let* base := dict_pop_default (options self) "base" (OClass Task) in
  let cls_name := __name__ f in
  let run := {| run__name__ := __name__ f;
                run_argspec := getargspec f;
                run_fun := f |} in
  let* cls_dict := dict_copy (options self) in
  dict_setitem cls_dict "run" (ORun run);;
  dict_setitem cls_dict "__module__" (OStr (__module__ f));;
  type_call cls_name base cls_dict.

End Constructor.

(** [task], called with keyword arguments: they are collected in a
    new dict object, [options], which the closure returned keeps. *)
Definition task (kwargs : gmap string object) : py store decorator :=
  let* options := dict_new kwargs in
  ret {| options := options |}.

(** [periodic_task], called with keyword arguments: [options] is the
    dict object that collects them, and the call of [task] with the
    items of [options] as keyword arguments makes another one. *)
Definition periodic_task (kwargs : gmap string object)
    : py store decorator :=
  let* options := dict_new kwargs in
  dict_setitem options "base" (OClass PeriodicTask);;
  let* m := read_dict options in
  task m.

(** The class [_create_task_cls] asks for, for a function [f], a base
    and the options left. *)
Definition task_class (f : pyfunction) (base : class_ref)
    (m : gmap string object) : class_desc :=
  {| cls_name := __name__ f;
     cls_base := base;
     cls_dict :=
       <["__module__" := OStr (__module__ f)]>
         (<["run" := ORun {| run__name__ := __name__ f;
                             run_argspec := func_argspec f;
                             run_fun := f |}]> m) |}.

End Decorators.

(** [lia] extended to the divisions by two of the heap indices. *)
Ltac dlia := zify; Z.to_euclidean_division_equations; lia.

Module HeapqFacts.
Import Heapq.

#[local] Arguments Nat.div : simpl never.
Section Facts.
Context {A : Type}.
Variable le : A -> A -> bool.
Hypothesis le_total : forall x y, le x y = true \/ le y x = true.
Hypothesis le_trans :
  forall x y z, le x y = true -> le y z = true -> le x z = true.

Lemma le_refl x : le x x = true.
Proof. destruct (le_total x x); assumption. Qed.

Lemma le_false_flip x y : le x y = false -> le y x = true.
Proof. intros H. destruct (le_total x y); congruence. Qed.

Lemma swap_cons (l : list A) i x y :
  i < length l -> x :: <[i := y]> l ≡ₚ y :: <[i := x]> l.
Proof.
  revert i. induction l as [|a l IH]; intros [|i] Hi; simpl in *; try dlia.
  - apply perm_swap.
  - rewrite (perm_swap a x), (perm_swap a y).
    apply perm_skip, IH. dlia.
Qed.

Lemma insert_swap (l : list A) i j x y :
  i <> j -> i < length l -> l !! j = Some y ->
  <[j := x]> (<[i := y]> l) ≡ₚ <[i := x]> l.
Proof.
  revert i j. induction l as [|a l IH]; intros [|i] [|j] Hne Hi Hj;
    simpl in *; try dlia; try done.
  - rewrite (swap_cons l j y x) by (eapply lookup_lt_Some; eassumption).
    by rewrite (list_insert_id l j y).
  - injection Hj as ->. apply swap_cons. dlia.
  - apply perm_skip, IH; [dlia | dlia | done].
Qed.

Lemma hole_inv_insert (heap : list A) pos x :
  hole_inv le heap pos -> hole_inv le (<[pos := x]> heap) pos.
Proof.
  intros [H1 H2]. split.
  - intros i y p Hi Hip Hpp Hy Hp.
    rewrite list_lookup_insert_ne in Hy by done.
    rewrite list_lookup_insert_ne in Hp by done. eauto.
  - intros c y g Hpos Hc Hcp Hy Hg.
    rewrite list_lookup_insert_ne in Hy by dlia.
    rewrite list_lookup_insert_ne in Hg by dlia. eauto.
Qed.

Lemma fill_hole (heap : list A) newitem pos p :
  hole_inv le heap pos -> fits le heap newitem pos ->
  (0 < pos -> heap !! ((pos - 1) / 2) = Some p /\ le p newitem = true) ->
  heap_inv le (<[pos := newitem]> heap).
Proof.
  intros [H1 H2] Hfit Hpar i x q Hi Hx Hq.
  destruct (decide (i = pos)) as [->|Hip].
  - destruct (Hpar Hi) as [Hp Hle].
    rewrite list_lookup_insert_ne in Hq by dlia.
    apply lookup_lt_Some in Hx as Hlen. rewrite length_insert in Hlen.
    rewrite list_lookup_insert_eq in Hx by done. congruence.
  - rewrite list_lookup_insert_ne in Hx by done.
    destruct (decide ((i - 1) / 2 = pos)) as [Hpp|Hpp].
    + rewrite Hpp in Hq. apply lookup_lt_Some in Hq as Hlen.
      rewrite length_insert in Hlen.
      rewrite list_lookup_insert_eq in Hq by done.
      injection Hq as <-. eapply Hfit; eauto.
    + rewrite list_lookup_insert_ne in Hq by done. eauto.
Qed.

Lemma _siftdown_loop_heap_inv fuel : forall (heap : list A) newitem pos,
  pos <= fuel -> pos < length heap ->
  hole_inv le heap pos -> fits le heap newitem pos ->
  heap_inv le (_siftdown_loop le fuel heap newitem 0 pos).
Proof.
  induction fuel as [|fuel IH]; intros heap newitem pos Hfuel Hlen Hh Hfit;
    simpl.
  - eapply (fill_hole _ _ _ newitem); eauto. dlia.
  - case_decide as Hpos; [|eapply (fill_hole _ _ _ newitem); eauto; dlia].
    destruct (heap !! ((pos - 1) / 2)) as [parent|] eqn:Hpar.
    2:{ apply lookup_ge_None_1 in Hpar. dlia. }
    destruct (le parent newitem) eqn:Hle.
    { eapply fill_hole; eauto. }
    apply le_false_flip in Hle.
    destruct Hh as [H1 H2].
    apply IH; [dlia | rewrite length_insert; dlia | |].
    + split.
      * intros i x p Hi Hip Hpp Hx Hp.
        assert (i <> pos) by (intros ->; done).
        rewrite list_lookup_insert_ne in Hx by done.
        destruct (decide ((i - 1) / 2 = pos)) as [Heq|Hne].
        -- rewrite Heq in Hp. rewrite list_lookup_insert_eq in Hp by done.
           injection Hp as <-. eapply H2; eauto.
        -- rewrite list_lookup_insert_ne in Hp by done. eauto.
      * intros c x g Hpp Hc Hcp Hx Hg.
        rewrite list_lookup_insert_ne in Hg by dlia.
        assert (le g parent = true) as Hgp.
        { eapply (H1 ((pos - 1) / 2)); eauto; dlia. }
        destruct (decide (c = pos)) as [->|Hcpos].
        -- rewrite list_lookup_insert_eq in Hx by done. congruence.
        -- rewrite list_lookup_insert_ne in Hx by done.
           eapply le_trans; [exact Hgp|].
           eapply (H1 c); eauto. dlia. rewrite Hcp. done.
    + intros c x Hc Hcp Hx.
      destruct (decide (c = pos)) as [->|Hcpos].
      * rewrite list_lookup_insert_eq in Hx by done. congruence.
      * rewrite list_lookup_insert_ne in Hx by done.
        eapply le_trans; [exact Hle|].
        eapply (H1 c); eauto. dlia. rewrite Hcp. done.
Qed.

Lemma _siftdown_loop_perm fuel : forall (heap : list A) newitem pos,
  pos < length heap ->
  _siftdown_loop le fuel heap newitem 0 pos ≡ₚ <[pos := newitem]> heap.
Proof.
  induction fuel as [|fuel IH]; intros heap newitem pos Hlen; simpl;
    [done|].
  case_decide as Hpos; [|done].
  destruct (heap !! ((pos - 1) / 2)) as [parent|] eqn:Hpar.
  2:{ apply lookup_ge_None_1 in Hpar. dlia. }
  destruct (le parent newitem); [done|].
  rewrite IH by (rewrite length_insert; dlia).
  apply insert_swap; [dlia | done | done].
Qed.


Lemma heap_inv_hole_root (heap : list A) x :
  heap_inv le heap -> hole_inv le (<[0 := x]> heap) 0.
Proof.
  intros Hh. split; [|intros; dlia].
  intros i y p Hi Hi0 Hp0 Hy Hp.
  rewrite list_lookup_insert_ne in Hy by dlia.
  rewrite list_lookup_insert_ne in Hp by dlia. eauto.
Qed.

Lemma heap_inv_hole_last (heap : list A) x :
  heap_inv le heap -> hole_inv le (heap ++ [x]) (length heap).
Proof.
  intros Hh. split.
  - intros i y p Hi Hil Hpl Hy Hp.
    apply lookup_lt_Some in Hy as Hlen. rewrite length_app in Hlen.
    simpl in Hlen.
    rewrite lookup_app_l in Hy by dlia.
    rewrite lookup_app_l in Hp by dlia. eauto.
  - intros c y g Hpos Hc Hcp Hy Hg.
    apply lookup_lt_Some in Hy as Hlen. rewrite length_app in Hlen.
    simpl in Hlen. dlia.
Qed.

Lemma fits_leaf (heap : list A) newitem pos :
  length heap <= 2 * pos + 1 -> fits le heap newitem pos.
Proof.
  intros Hleaf c x Hc Hcp Hx. apply lookup_lt_Some in Hx. dlia.
Qed.

Lemma heap_inv_take (heap : list A) n :
  heap_inv le heap -> heap_inv le (take n heap).
Proof.
  intros Hh i x p Hi Hx Hp.
  apply lookup_take_Some in Hx as [Hx _].
  apply lookup_take_Some in Hp as [Hp _]. eauto.
Qed.

(** What the loop of [_siftup] establishes: the hole has reached a
    leaf, the list is heap ordered around it, and filling the hole
    gives back the elements the list had with the first hole filled. *)
Lemma _siftup_loop_spec fuel : forall (heap : list A) pos,
  pos < length heap -> length heap <= fuel + pos ->
  hole_inv le heap pos ->
  let '(heap', pos') := _siftup_loop le fuel heap (length heap) pos in
  length heap' = length heap /\ pos' < length heap /\
  length heap <= 2 * pos' + 1 /\ hole_inv le heap' pos' /\
  forall x, <[pos' := x]> heap' ≡ₚ <[pos := x]> heap.
Proof.
  induction fuel as [|fuel IH]; intros heap pos Hlen Hfuel Hh;
    cbn [_siftup_loop]; [dlia|].
  case_decide as Hchild.
  2:{ split; [done|]. split; [done|]. split; [dlia|]. by split. }
  set (childpos :=
         if decide (2 * pos + 1 + 1 < length heap)
         then match heap !! (2 * pos + 1 + 1), heap !! (2 * pos + 1) with
              | Some r, Some c =>
                  if le r c then 2 * pos + 1 + 1 else 2 * pos + 1
              | _, _ => 2 * pos + 1
              end
         else 2 * pos + 1).
  assert (childpos < length heap /\
          (childpos = 2 * pos + 1 \/ childpos = 2 * pos + 2) /\
          forall c x y, 0 < c -> (c - 1) / 2 = pos ->
                        heap !! c = Some x -> heap !! childpos = Some y ->
                        le y x = true) as (Hclen & Hcases & Hsmall).
  { subst childpos. case_decide as Hright.
    - destruct (lookup_lt_is_Some_2 heap (2 * pos + 1 + 1) Hright)
        as [r Hr].
      destruct (lookup_lt_is_Some_2 heap (2 * pos + 1) Hchild) as [c Hc].
      rewrite Hr, Hc. destruct (le r c) eqn:Hrc.
      + split; [done|]. split; [dlia|].
        intros c' x y Hc' Hpar Hx Hy.
        assert (c' = 2 * pos + 1 \/ c' = 2 * pos + 1 + 1) as [->| ->]
          by dlia.
        * congruence.
        * replace y with x by congruence. apply le_refl.
      + apply le_false_flip in Hrc. split; [done|]. split; [dlia|].
        intros c' x y Hc' Hpar Hx Hy.
        assert (c' = 2 * pos + 1 \/ c' = 2 * pos + 1 + 1) as [->| ->]
          by dlia.
        * replace y with x by congruence. apply le_refl.
        * congruence.
    - split; [done|]. split; [dlia|].
      intros c' x y Hc' Hpar Hx Hy. apply lookup_lt_Some in Hx as Hxl.
      assert (c' = 2 * pos + 1) as -> by dlia.
      replace y with x by congruence. apply le_refl. }
  clearbody childpos.
  destruct (lookup_lt_is_Some_2 heap childpos Hclen) as [child Hchildv].
  rewrite Hchildv.
  assert ((childpos - 1) / 2 = pos) as Hcpar by dlia.
  destruct Hh as [H1 H2].
  specialize (IH (<[pos := child]> heap) childpos).
  rewrite length_insert in IH.
  destruct (_siftup_loop le fuel (<[pos := child]> heap) (length heap)
              childpos) as [heap' pos'].
  destruct IH as (Hl' & Hp' & Hleaf & Hh' & Hperm); [done | dlia | |].
  - split.
    + intros i x p Hi Hic Hpc Hx Hp.
      destruct (decide (i = pos)) as [->|Hip].
      * rewrite list_lookup_insert_eq in Hx by done. injection Hx as <-.
        rewrite list_lookup_insert_ne in Hp by dlia.
        eapply (H2 childpos); eauto; dlia.
      * rewrite list_lookup_insert_ne in Hx by done.
        destruct (decide ((i - 1) / 2 = pos)) as [Heq|Hne].
        -- rewrite Heq in Hp. rewrite list_lookup_insert_eq in Hp by done.
           injection Hp as <-. eapply Hsmall; eauto.
        -- rewrite list_lookup_insert_ne in Hp by done. eauto.
    + intros c x g _ Hc Hcp Hx Hg.
      rewrite Hcpar in Hg. rewrite list_lookup_insert_eq in Hg by done.
      injection Hg as <-.
      rewrite list_lookup_insert_ne in Hx by dlia.
      eapply (H1 c); eauto; try dlia. by rewrite Hcp.
  - split; [done|]. split; [done|]. split; [done|]. split; [done|].
    intros x. rewrite Hperm. apply insert_swap; [dlia | done | done].
Qed.

Lemma _siftup_root_spec (heap : list A) :
  hole_inv le heap 0 ->
  heap_inv le (_siftup le heap 0) /\ _siftup le heap 0 ≡ₚ heap.
Proof.
  intros Hh. unfold _siftup.
  destruct (heap !! 0) as [newitem|] eqn:Hnew.
  2:{ apply lookup_ge_None_1 in Hnew.
      destruct heap; [|simpl in Hnew; dlia]. split; [|done].
      intros i x p _ Hx. done. }
  apply lookup_lt_Some in Hnew as Hlen.
  pose proof (_siftup_loop_spec (length heap) heap 0 Hlen) as Hspec.
  destruct (_siftup_loop le (length heap) heap (length heap) 0)
    as [heap' pos'].
  destruct Hspec as (Hl' & Hp' & Hleaf & Hh' & Hperm); [dlia | done |].
  unfold _siftdown.
  rewrite list_lookup_insert_eq by dlia. split.
  - apply _siftdown_loop_heap_inv;
      [done | rewrite length_insert; dlia | by apply hole_inv_insert |].
    apply fits_leaf. rewrite length_insert. dlia.
  - rewrite _siftdown_loop_perm by (rewrite length_insert; dlia).
    rewrite list_insert_insert_eq, Hperm. by rewrite list_insert_id.
Qed.

(** [heappush] keeps the heap invariant and adds exactly [item]. *)
Lemma heappush_spec (heap : list A) item :
  heap_inv le heap ->
  heap_inv le (heappush le heap item) /\
  heappush le heap item ≡ₚ item :: heap.
Proof.
  intros Hh. unfold heappush, _siftdown.
  rewrite length_app. simpl.
  replace (length heap + 1 - 1) with (length heap) by dlia.
  rewrite lookup_app_r by done. rewrite Nat.sub_diag. simpl. split.
  - apply _siftdown_loop_heap_inv;
      [done | rewrite length_app; simpl; dlia
       | by apply heap_inv_hole_last |].
    apply fits_leaf. rewrite length_app. simpl. dlia.
  - rewrite _siftdown_loop_perm by (rewrite length_app; simpl; dlia).
    rewrite list_insert_id by (by rewrite lookup_app_r, Nat.sub_diag).
    by rewrite Permutation_app_comm.
Qed.

Lemma heappop_nil : heappop le (@nil A) = None.
Proof. reflexivity. Qed.

(** [heappop] returns [heap[0]], removes exactly that element and
    keeps the heap invariant; it raises only on the empty list. *)
Lemma heappop_spec (heap : list A) root :
  heap_inv le heap -> heap !! 0 = Some root ->
  exists heap',
    heappop le heap = Some (root, heap') /\
    heap_inv le heap' /\ root :: heap' ≡ₚ heap.
Proof.
  intros Hh Hroot. unfold heappop, list_pop.
  destruct (last heap) as [lastelt|] eqn:Hlast.
  2:{ apply last_None in Hlast. subst. done. }
  apply last_Some in Hlast as [front ->].
  rewrite length_app. simpl.
  replace (length front + 1 - 1) with (length front) by dlia.
  rewrite take_app_length.
  destruct front as [|first rest].
  - simpl in Hroot. injection Hroot as ->. exists []. repeat split; auto.
    intros i x p _ Hx. done.
  - simpl in Hroot. injection Hroot as ->.
    exists (_siftup le (<[0 := lastelt]> (root :: rest)) 0).
    split; [done|].
    assert (heap_inv le (root :: rest)) as Hfront.
    { intros i x p Hi Hx Hp. eapply Hh; eauto.
      - by apply lookup_app_l_Some.
      - by apply (lookup_app_l_Some (root :: rest)). }
    destruct (_siftup_root_spec (<[0 := lastelt]> (root :: rest)))
      as [Hinv Hperm].
    { by apply heap_inv_hole_root. }
    split; [done|]. rewrite Hperm. simpl.
    by rewrite (Permutation_app_comm rest [lastelt]).
Qed.

(** The root of a heap is below every element. *)
Lemma heap_inv_root_min (heap : list A) root :
  heap_inv le heap -> heap !! 0 = Some root ->
  forall i x, heap !! i = Some x -> le root x = true.
Proof.
  intros Hh Hroot i. induction i as [i IH] using lt_wf_ind. intros x Hx.
  destruct (decide (i = 0)) as [->|Hi].
  - replace x with root by congruence. apply le_refl.
  - apply lookup_lt_Some in Hx as Hlen.
    destruct (lookup_lt_is_Some_2 heap ((i - 1) / 2)) as [p Hp]; [dlia|].
    eapply le_trans; [eapply (IH ((i - 1) / 2)); [dlia | exact Hp]|].
    apply (Hh i x p); [dlia | done | done].
Qed.

Lemma heap_inv_nil : heap_inv le (@nil A).
Proof. intros i x p _ Hx. done. Qed.

End Facts.
End HeapqFacts.

(** ** The order on the scheduler's tuples *)

Lemma callback_le_total a b :
  callback_le a b = true \/ callback_le b a = true.
Proof.
  destruct a as [x|], b as [y|]; simpl; auto.
  destruct (Nat.leb_spec x y), (Nat.leb_spec y x); auto; lia.
Qed.

Lemma callback_le_trans a b c :
  callback_le a b = true -> callback_le b c = true ->
  callback_le a c = true.
Proof.
  destruct a as [x|], b as [y|], c as [z|]; simpl; try done.
  rewrite !Nat.leb_le. lia.
Qed.

Lemma callback_le_antisym a b :
  callback_le a b = true -> callback_le b a = true -> a = b.
Proof.
  destruct a as [x|], b as [y|]; simpl; try done.
  rewrite !Nat.leb_le. intros. f_equal. lia.
Qed.

Ltac tuple_cases :=
  unfold tuple_le in *;
  repeat match goal with
         | |- context [Z.eqb ?x ?y] => destruct (Z.eqb_spec x y); simpl
         | |- context [Nat.eqb ?x ?y] => destruct (Nat.eqb_spec x y); simpl
         | H : context [Z.eqb ?x ?y] |- _ =>
             destruct (Z.eqb_spec x y); simpl in H
         | H : context [Nat.eqb ?x ?y] |- _ =>
             destruct (Nat.eqb_spec x y); simpl in H
         end;
  rewrite ?Z.leb_le, ?Nat.leb_le in *.

Lemma tuple_le_total a b : tuple_le a b = true \/ tuple_le b a = true.
Proof.
  tuple_cases; try lia; try congruence. apply callback_le_total.
Qed.

Lemma tuple_le_trans a b c :
  tuple_le a b = true -> tuple_le b c = true -> tuple_le a c = true.
Proof.
  unfold tuple_le. intros Hab Hbc.
  tuple_cases; try lia; try congruence.
  eapply callback_le_trans; eassumption.
Qed.

Lemma tuple_le_key_le a b : tuple_le a b = true -> key_le a b.
Proof.
  unfold key_le. intros H. tuple_cases; lia.
Qed.

Lemma key_lt_not_tuple_le a b : key_lt a b -> tuple_le b a = false.
Proof.
  unfold key_lt. intros H.
  destruct (tuple_le b a) eqn:Hba; [|done].
  apply tuple_le_key_le in Hba. unfold key_le in Hba. lia.
Qed.

(** ** The calls, one by one *)

Lemma heappop_cons {A} (le : A -> A -> bool) x l :
  exists l', Heapq.heappop le (x :: l) = Some (x, l').
Proof.
  unfold Heapq.heappop, Heapq.list_pop.
  destruct (last (x :: l)) as [lastelt|] eqn:Hlast.
  2:{ by apply last_None in Hlast. }
  apply last_Some in Hlast as [front Hfront]. rewrite Hfront.
  rewrite length_app. simpl.
  replace (length front + 1 - 1) with (length front) by lia.
  rewrite take_app_length.
  destruct front as [|y front]; simpl in Hfront.
  - injection Hfront as -> _. eauto.
  - injection Hfront as -> _. eauto.
Qed.

Lemma enter_eq self item eta priority callback clock w q :
  lists w !! _queue self = Some q ->
  let e := Event (next_id w)
                 (match eta with
                  | Some d => mktime_timetuple d
                  | None => clock
                  end) priority item callback in
  enter self item eta priority callback clock w =
    (Ret tt,
     World (<[_queue self := Heapq.heappush tuple_le q e]> (lists w))
           (S (next_id w)) (ready w) (called w) (promoted w)).
Proof.
  intros Hq e. unfold enter, heappush, new_tuple, read_list, write_list,
    modify, set_lists, bind. simpl. by rewrite Hq.
Qed.

Lemma next_after_hint g clock w :
  g_pc g = AtYieldRemaining \/ g_pc g = AtYieldZero ->
  next g clock w =
    (Ret (NoHint, {| g_self := g_self g; g_pc := AtYieldNone |}), w).
Proof. unfold next. by intros [-> | ->]. Qed.

Lemma next_empty g clock w :
  g_pc g = GenStart \/ g_pc g = AtYieldNone ->
  lists w !! _queue (g_self g) = Some [] ->
  next g clock w =
    (Ret (NoHint, {| g_self := g_self g; g_pc := AtYieldNone |}), w).
Proof.
  unfold next, loop_body, read_list, bind, ret.
  by intros [-> | ->] ->.
Qed.

Lemma next_waiting g clock w verify l :
  g_pc g = GenStart \/ g_pc g = AtYieldNone ->
  lists w !! _queue (g_self g) = Some (verify :: l) ->
  (clock < ev_eta verify)%Z ->
  next g clock w =
    (Ret (Sleep (ev_eta verify - clock),
          {| g_self := g_self g; g_pc := AtYieldRemaining |}), w).
Proof.
  unfold next, loop_body, read_list, bind, ret.
  intros Hpc Hq Hlt. apply Z.ltb_lt in Hlt.
  by destruct Hpc as [-> | ->]; rewrite Hq, Hlt.
Qed.

Lemma next_due g clock w verify l l' :
  g_pc g = GenStart \/ g_pc g = AtYieldNone ->
  lists w !! _queue (g_self g) = Some (verify :: l) ->
  (ev_eta verify <= clock)%Z ->
  Heapq.heappop tuple_le (verify :: l) = Some (verify, l') ->
  next g clock w =
    (Ret (Sleep 0, {| g_self := g_self g; g_pc := AtYieldZero |}),
     World (<[_queue (g_self g) := l']> (lists w))
           (next_id w) (ready w ++ [ev_item verify])
           (called w ++ callbacks_of [verify])
           (promoted w ++ [(verify, clock)])).
Proof.
  unfold next, loop_body, heappop, read_list, write_list, ready_queue_put,
    note_promotion, call_callback, modify, set_lists, bind, ret.
  intros Hpc Hq Hle Hpop. apply Z.ltb_ge in Hle.
  unfold callbacks_of.
  destruct Hpc as [-> | ->]; rewrite Hq, Hle, Hq, Hpop; simpl;
    unfold is_; rewrite Nat.eqb_refl; simpl;
    destruct (ev_callback verify); simpl; by rewrite ?app_nil_r.
Qed.

Lemma empty_eq self w q :
  lists w !! _queue self = Some q ->
  empty self w = (Ret (match q with [] => true | _ => false end), w).
Proof. unfold empty, read_list, bind, ret. by intros ->. Qed.

Lemma fresh_list_ne (m : gmap loc (list event)) r l :
  m !! r = Some l -> fresh (dom m) <> r.
Proof.
  intros Hr Heq. apply (is_fresh (dom m)). rewrite Heq.
  apply elem_of_dom. eauto.
Qed.

Lemma drain_S n l :
  drain (S n) l =
    match Heapq.heappop tuple_le l with
    | Some (x, l') => x :: drain n l'
    | None => []
    end.
Proof. reflexivity. Qed.

Lemma set_lists_insert_insert r (l l' : list event) w :
  set_lists <[r := l]> (set_lists <[r := l']> w) = set_lists <[r := l]> w.
Proof. unfold set_lists. simpl. by rewrite insert_insert_eq. Qed.

Lemma set_lists_insert_id r (l : list event) w :
  lists w !! r = Some l -> set_lists <[r := l]> w = w.
Proof.
  intros H. destruct w. unfold set_lists. simpl in *. f_equal.
  by apply insert_id.
Qed.

Lemma heappop_eq r w l x l' :
  lists w !! r = Some l ->
  Heapq.heappop tuple_le l = Some (x, l') ->
  heappop r w = (Ret x, set_lists <[r := l']> w).
Proof.
  intros Hl Hpop.
  unfold heappop, read_list, write_list, modify, bind, ret.
  by rewrite Hl, Hpop.
Qed.

(** Popping a heap until it is empty returns its elements in
    ascending order and leaves the list object empty. *)
Lemma mapM_heappop_drain n : forall w r l,
  lists w !! r = Some l -> length l = n -> Heapq.heap_inv tuple_le l ->
  mapM heappop (replicate n r) w
    = (Ret (drain n l), set_lists <[r := []]> w) /\
  drain n l ≡ₚ l /\
  StronglySorted (fun a b => tuple_le a b = true) (drain n l).
Proof.
  induction n as [|n IH]; intros w r l Hl Hlen Hheap.
  - destruct l; [|done]. simpl. unfold ret.
    rewrite set_lists_insert_id by done. repeat split; auto. constructor.
  - destruct l as [|x l0]; [done|].
    destruct (HeapqFacts.heappop_spec tuple_le tuple_le_total
                tuple_le_trans (x :: l0) x Hheap eq_refl)
      as (l' & Hpop & Hheap' & Hperm).
    destruct (IH (set_lists <[r := l']> w) r l') as (Hrun & Hp & Hs).
    { unfold set_lists. simpl. by rewrite lookup_insert_eq. }
    { apply Permutation_length in Hperm. simpl in *. lia. }
    { done. }
    replace (drain (S n) (x :: l0)) with (x :: drain n l')
      by (by rewrite drain_S, Hpop).
    split; [|split].
    + simpl. unfold bind at 1. rewrite (heappop_eq r w _ x l' Hl Hpop).
      unfold bind at 1. rewrite Hrun. unfold ret.
      by rewrite set_lists_insert_insert.
    + rewrite Hp. done.
    + constructor; [done|]. apply Forall_forall. intros y Hy.
      rewrite Hp in Hy.
      assert (y ∈ x :: l0) as Hin by (rewrite <- Hperm; by right).
      apply list_elem_of_lookup in Hin as [i Hi].
      eapply (HeapqFacts.heap_inv_root_min tuple_le tuple_le_total
                tuple_le_trans (x :: l0) x); eauto.
Qed.

Lemma queue_eq self w q :
  lists w !! _queue self = Some q -> Heapq.heap_inv tuple_le q ->
  queue self w =
    (Ret (drain (length q) q),
     World (<[fresh (dom (lists w)) := []]> (lists w)) (next_id w)
           (ready w) (called w) (promoted w)) /\
  drain (length q) q ≡ₚ q /\
  StronglySorted (fun a b => tuple_le a b = true) (drain (length q) q).
Proof.
  intros Hq Hheap. unfold queue.
  set (w1 := World (<[fresh (dom (lists w)) := q]> (lists w))
                   (next_id w) (ready w) (called w) (promoted w)).
  destruct (mapM_heappop_drain (length q) w1 (fresh (dom (lists w))) q)
    as (Hrun & Hperm & Hsorted).
  { simpl. by rewrite lookup_insert_eq. }
  { done. }
  { done. }
  split; [|done].
  unfold bind, read_list, alloc_list, ret. rewrite Hq. fold w1.
  replace (lists w1 !! fresh (dom (lists w))) with (Some q)
    by (simpl; by rewrite lookup_insert_eq).
  rewrite Hrun. unfold w1, set_lists. simpl.
  by rewrite insert_insert_eq.
Qed.

(** ** Every call returns, and keeps the worker's state well formed *)

Lemma boot_eq :
  boot = Ret (System {| _queue := 0 |}
                     {| g_self := {| _queue := 0 |}; g_pc := GenStart |}
                     (World {[ 0 := [] ]} 0 [] [] [])).
Proof. reflexivity. Qed.

Lemma boot_wf s : boot = Ret s -> wf s.
Proof.
  rewrite boot_eq. intros [= <-]. split; [done|].
  exists []. split; [done|]. apply HeapqFacts.heap_inv_nil.
Qed.

Lemma wf_frontier s :
  wf s -> lists (wld s) !! _queue (sched s) = Some (frontier s) /\
          Heapq.heap_inv tuple_le (frontier s).
Proof.
  intros (_ & q & Hq & Hheap). unfold frontier. by rewrite Hq.
Qed.

Lemma step_wf c clock s :
  wf s ->
  exists r s',
    step c clock s = Ret (r, s') /\ wf s' /\ sched s' = sched s /\
    effect s clock c r s'.
Proof.
  intros (Hself & q & Hq & Hheap).
  assert (frontier s = q) as Hfr by (unfold frontier; by rewrite Hq).
  destruct s as [self g w]. simpl in *. subst self.
  destruct c as [item eta priority callback| | |]; simpl.
  - rewrite (enter_eq _ item eta priority callback clock w _ Hq).
    set (e := Event (next_id w) _ priority item callback).
    destruct (HeapqFacts.heappush_spec tuple_le tuple_le_total
                tuple_le_trans q e Hheap) as [Hheap' Hperm].
    eexists _, _. split; [done|]. split; [|split; [done|]].
    + split; [done|]. eexists. simpl.
      rewrite lookup_insert_eq. eauto.
    + apply effect_enter; try done. rewrite Hfr.
      unfold frontier. simpl. by rewrite lookup_insert_eq.
  - assert ((g_pc g = GenStart \/ g_pc g = AtYieldNone) \/
            (g_pc g = AtYieldRemaining \/ g_pc g = AtYieldZero))
      as [Htop|Hpc] by (destruct (g_pc g); auto).
    + destruct q as [|verify l].
      * rewrite (next_empty g clock w Htop Hq).
        eexists _, _. split; [done|]. split; [|split; [done|]].
        -- split; [done|]. exists []. done.
        -- by apply effect_idle.
      * destruct (Z.lt_ge_cases clock (ev_eta verify)) as [Hlt|Hge].
        -- rewrite (next_waiting g clock w verify l Htop Hq Hlt).
           eexists _, _. split; [done|]. split; [|split; [done|]].
           ++ split; [done|]. exists (verify :: l). done.
           ++ by apply effect_idle.
        -- destruct (HeapqFacts.heappop_spec tuple_le tuple_le_total
                       tuple_le_trans (verify :: l) verify Hheap eq_refl)
             as (l' & Hpop & Hheap' & Hperm).
           rewrite (next_due g clock w verify l l' Htop Hq Hge Hpop).
           eexists _, _. split; [done|]. split; [|split; [done|]].
           ++ split; [done|]. exists l'. simpl.
              by rewrite lookup_insert_eq.
           ++ apply (effect_promote _ _ verify); try done.
              ** by rewrite Hfr.
              ** rewrite Hfr. unfold frontier. simpl.
                 by rewrite lookup_insert_eq.
              ** rewrite Hfr. intros x [i Hi]%list_elem_of_lookup.
                 eapply (HeapqFacts.heap_inv_root_min tuple_le
                           tuple_le_total tuple_le_trans (verify :: l));
                   eauto.
    + rewrite (next_after_hint g clock w Hpc).
      eexists _, _. split; [done|]. split; [|split; [done|]].
      * split; [done|]. eauto.
      * by apply effect_idle.
  - rewrite (empty_eq _ w _ Hq).
    eexists _, _. split; [done|]. split; [|split; [done|]].
    + split; [done|]. eauto.
    + rewrite <- Hfr. by apply effect_empty.
  - destruct (queue_eq _ w _ Hq Hheap) as (Hrun & Hperm & Hsort).
    rewrite Hrun.
    assert (<[fresh (dom (lists w)) := []]> (lists w) !! _queue (g_self g)
            = Some q)
      as Hq'.
    { rewrite lookup_insert_ne by (by eapply fresh_list_ne). done. }
    eexists _, _. split; [done|]. split; [|split; [done|]].
    + split; [done|]. eexists. simpl. eauto.
    + apply effect_queue; try done; [|by rewrite Hfr].
      unfold same_contents. rewrite Hfr. unfold frontier. simpl.
      by rewrite Hq'.
Qed.

(** ** Sequences of calls *)

Lemma entered_from_app n calls1 calls2 :
  entered_from n (calls1 ++ calls2) =
    entered_from n calls1
      ++ entered_from (n + length (entered_from n calls1)) calls2.
Proof.
  revert n. induction calls1 as [|[c clock] calls1 IH]; intros n; simpl.
  - by rewrite Nat.add_0_r.
  - destruct c; simpl; rewrite ?IH; try done.
    by replace (S n + length (entered_from (S n) calls1))
      with (n + S (length (entered_from (S n) calls1))) by lia.
Qed.

Lemma entered_from_ids n calls :
  ev_id <$> entered_from n calls = seq n (length (entered_from n calls)).
Proof.
  revert n. induction calls as [|[c clock] calls IH]; intros n; simpl;
    [done|].
  destruct c; simpl; rewrite ?IH; done.
Qed.

Lemma history_refl s : history s [] s.
Proof.
  split; [simpl; by rewrite app_nil_r|]. split; [simpl; lia|].
  exists []. simpl. rewrite !app_nil_r. repeat split; auto.
Qed.

Lemma history_trans s calls1 s1 calls2 s2 :
  history s calls1 s1 -> history s1 calls2 s2 ->
  history s (calls1 ++ calls2) s2.
Proof.
  intros (Hp1 & Hn1 & news1 & Hpr1 & Hr1 & Hc1 & Hf1)
         (Hp2 & Hn2 & news2 & Hpr2 & Hr2 & Hc2 & Hf2).
  split; [|split].
  - rewrite entered_from_app, Hp2, Hp1, <- Hn1.
    by rewrite !(assoc_L (++)).
  - rewrite entered_from_app, length_app, Hn2, Hn1. lia.
  - exists (news1 ++ news2). split; [|split; [|split]].
    + rewrite Hpr2, Hpr1. by rewrite (assoc_L (++)).
    + rewrite Hr2, Hr1, !fmap_app. by rewrite (assoc_L (++)).
    + rewrite Hc2, Hc1. unfold callbacks_of.
      rewrite fmap_app, omap_app. by rewrite (assoc_L (++)).
    + by apply Forall_app.
Qed.

Lemma same_contents_history s s' : same_contents s s' -> history s [] s'.
Proof.
  intros (Hf & Hp & Hr & Hc & Hn). unfold history, promoted_events.
  rewrite Hf, Hp, Hr, Hc, Hn. apply history_refl.
Qed.

Lemma effect_history s clock c r s' :
  effect s clock c r s' -> history s [(c, clock)] s'.
Proof.
  intros Heff. destruct Heff
    as [item eta priority callback s' Hf Hp Hr Hc Hn Hd
       | h s' Hsame
       | verify s' Hroot Hperm Hmin Hdue Hp Hr Hc Hn
       | s' Hsame Hd
       | out s' Hsame Hd Hout Hsorted];
    try (by apply same_contents_history).
  - unfold history, promoted_events. rewrite Hp, Hr, Hc, Hn. simpl.
    split; [|split; [lia|]].
    + rewrite Hf. simpl. apply Permutation_cons_append.
    + exists []. simpl. rewrite !app_nil_r. repeat split; auto.
  - unfold history, promoted_events. rewrite Hp, Hr, Hc, Hn. simpl.
    split; [|split; [lia|]].
    + rewrite app_nil_r, fmap_app. simpl. rewrite <- Hperm. simpl.
      rewrite (assoc_L (++)). symmetry. apply Permutation_cons_append.
    + exists [(verify, clock)]. simpl. repeat split; auto.
Qed.

(** From a well-formed state every sequence of calls runs to its end:
    no call raises. *)
Lemma run_wf calls : forall s,
  wf s ->
  exists rs s',
    run calls s = Ret (rs, s') /\ wf s' /\ sched s' = sched s /\
    history s calls s'.
Proof.
  induction calls as [|[c clock] calls IH]; intros s Hwf.
  - exists [], s. repeat split; auto; apply history_refl || apply Hwf.
  - destruct (step_wf c clock s Hwf) as (r & s1 & Hstep & Hwf1 & Hs1 & Heff).
    destruct (IH s1 Hwf1) as (rs & s' & Hrun & Hwf' & Hs' & Hhist).
    exists (r :: rs), s'. simpl. rewrite Hstep, Hrun.
    split; [done|]. split; [done|]. split; [congruence|].
    apply (history_trans s [(c, clock)] s1 calls s'); [|done].
    by eapply effect_history.
Qed.

(** ** The four ways a [next()] can go *)

Lemma top_or_hint s : at_top s \/ after_hint s.
Proof. unfold at_top, after_hint. destruct (g_pc (driver s)); auto. Qed.

Lemma step_next_after_hint s clock :
  after_hint s ->
  step CallNext clock s =
    Ret (Yielded NoHint,
         System (sched s)
                {| g_self := g_self (driver s); g_pc := AtYieldNone |}
                (wld s)).
Proof. intros H. simpl. by rewrite next_after_hint. Qed.

Lemma step_next_empty s clock :
  wf s -> at_top s -> frontier s = [] ->
  step CallNext clock s =
    Ret (Yielded NoHint,
         System (sched s)
                {| g_self := g_self (driver s); g_pc := AtYieldNone |}
                (wld s)).
Proof.
  intros Hwf Htop Hfr. destruct (wf_frontier s Hwf) as [Hq _].
  destruct Hwf as (Hself & _). rewrite Hfr, <- Hself in Hq.
  simpl. by rewrite next_empty.
Qed.

Lemma step_next_waiting s clock verify l :
  wf s -> at_top s -> frontier s = verify :: l ->
  (clock < ev_eta verify)%Z ->
  step CallNext clock s =
    Ret (Yielded (Sleep (ev_eta verify - clock)),
         System (sched s)
                {| g_self := g_self (driver s); g_pc := AtYieldRemaining |}
                (wld s)).
Proof.
  intros Hwf Htop Hfr Hlt. destruct (wf_frontier s Hwf) as [Hq _].
  destruct Hwf as (Hself & _). rewrite Hfr, <- Hself in Hq.
  simpl. by rewrite (next_waiting _ _ _ verify l).
Qed.

Lemma step_next_due s clock verify l :
  wf s -> at_top s -> frontier s = verify :: l ->
  (ev_eta verify <= clock)%Z ->
  exists s',
    step CallNext clock s = Ret (Yielded (Sleep 0), s') /\
    wf s' /\ sched s' = sched s /\
    g_pc (driver s') = AtYieldZero /\
    verify :: frontier s' ≡ₚ frontier s /\
    promoted (wld s') = promoted (wld s) ++ [(verify, clock)] /\
    ready (wld s') = ready (wld s) ++ [ev_item verify] /\
    called (wld s') = called (wld s) ++ callbacks_of [verify] /\
    next_id (wld s') = next_id (wld s).
Proof.
  intros Hwf Htop Hfr Hdue. destruct (wf_frontier s Hwf) as [Hq Hheap].
  destruct Hwf as (Hself & _). rewrite Hfr in Hq, Hheap.
  destruct (HeapqFacts.heappop_spec tuple_le tuple_le_total
              tuple_le_trans (verify :: l) verify Hheap eq_refl)
    as (l' & Hpop & Hheap' & Hperm).
  rewrite <- Hself in Hq. simpl.
  rewrite (next_due _ clock _ verify l l' Htop Hq Hdue Hpop).
  eexists. split; [done|]. rewrite Hfr. unfold frontier. simpl.
  rewrite Hself, lookup_insert_eq. simpl.
  split; [|by repeat split].
  split; [done|]. exists l'. simpl.
  by rewrite lookup_insert_eq.
Qed.

Lemma run_app calls1 calls2 s :
  run (calls1 ++ calls2) s =
    match run calls1 s with
    | Ret (rs1, s1) =>
        match run calls2 s1 with
        | Ret (rs2, s2) => Ret (rs1 ++ rs2, s2)
        | Raise e => Raise e
        end
    | Raise e => Raise e
    end.
Proof.
  revert s. induction calls1 as [|[c clock] calls1 IH]; intros s; simpl.
  - by destruct (run calls2 s) as [[rs2 s2]|e].
  - destruct (step c clock s) as [[r s1]|e]; [|done]. rewrite IH.
    destruct (run calls1 s1) as [[rs1 s1']|e]; [|done].
    by destruct (run calls2 s1') as [[rs2 s2]|e].
Qed.

(** Two calls of [next()] at clocks no entry is waiting for promote one
    entry, wherever the iterator was suspended. *)
Lemma two_nexts_promote s (t1 t2 : timestamp) verify l :
  wf s -> frontier s = verify :: l ->
  (forall e, e ∈ frontier s -> (ev_eta e <= t1)%Z /\ (ev_eta e <= t2)%Z) ->
  exists rs s',
    run [(CallNext, t1); (CallNext, t2)] s = Ret (rs, s') /\
    wf s' /\ verify :: frontier s' ≡ₚ frontier s.
Proof.
  intros Hwf Hfr Hdue.
  assert ((ev_eta verify <= t1)%Z /\ (ev_eta verify <= t2)%Z) as [Hd1 Hd2].
  { apply Hdue. rewrite Hfr. by left. }
  destruct (top_or_hint s) as [Htop|Hhint].
  - destruct (step_next_due s t1 verify l Hwf Htop Hfr Hd1)
      as (s1 & Hstep1 & Hwf1 & _ & Hpc1 & Hperm & _).
    assert (after_hint s1) as Hhint1 by (by right).
    eexists _, _. cbn [run]. rewrite Hstep1.
    rewrite (step_next_after_hint s1 t2 Hhint1).
    split; [done|]. split; [|done].
    destruct Hwf1 as (Hs1 & Hq1). by split.
  - pose proof (step_next_after_hint s t1 Hhint) as Hstep1.
    set (s1 := System (sched s)
                 {| g_self := g_self (driver s); g_pc := AtYieldNone |}
                 (wld s)) in *.
    assert (wf s1) as Hwf1.
    { destruct Hwf as (Hs & Hq). by split. }
    assert (at_top s1) as Htop1 by (by right).
    destruct (step_next_due s1 t2 verify l Hwf1 Htop1 Hfr Hd2)
      as (s2 & Hstep2 & Hwf2 & _ & _ & Hperm & _).
    eexists _, _. cbn [run]. rewrite Hstep1, Hstep2. done.
Qed.

(** Driving the iterator long enough empties the frontier: twice as
    many calls as there are entries, at clocks that have reached every
    due time. *)
Lemma drive_to_empty n : forall s clocks,
  wf s -> length (frontier s) = n -> length clocks = 2 * n ->
  (forall t e, t ∈ clocks -> e ∈ frontier s -> (ev_eta e <= t)%Z) ->
  exists rs s',
    run ((fun t => (CallNext, t)) <$> clocks) s = Ret (rs, s') /\
    frontier s' = [].
Proof.
  induction n as [|n IH]; intros s clocks Hwf Hlen Hclocks Hdue.
  - destruct clocks; [|done]. exists [], s. split; [done|].
    by apply nil_length_inv.
  - destruct clocks as [|t1 [|t2 clocks]]; simpl in Hclocks; try lia.
    destruct (frontier s) as [|verify l] eqn:Hfr; [done|].
    destruct (two_nexts_promote s t1 t2 verify l Hwf Hfr)
      as (rs & s1 & Hrun & Hwf1 & Hperm).
    { intros e He. rewrite Hfr in He.
      split; apply Hdue; [by left | done | by right; left | done]. }
    destruct (IH s1 clocks Hwf1) as (rs' & s' & Hrun' & Hempty).
    { apply Permutation_length in Hperm. rewrite Hfr in Hperm.
      simpl in *. lia. }
    { lia. }
    { intros t e Ht He. apply Hdue; [by do 2 right|].
      rewrite <- Hfr, <- Hperm. by right. }
    exists (rs ++ rs'), s'. split; [|done].
    change ((fun t => (CallNext, t)) <$> t1 :: t2 :: clocks)
      with ([(CallNext, t1); (CallNext, t2)]
              ++ ((fun t => (CallNext, t)) <$> clocks)).
    by rewrite run_app, Hrun, Hrun'.
Qed.

(** ** Order of promotion *)

Lemma effect_order s clock c r s' a b :
  effect s clock c r s' -> key_lt a b ->
  order_state a b s -> order_state a b s'.
Proof.
  intros Heff Hkey Hord.
  assert (forall s', same_contents s s' -> order_state a b s') as Hsame.
  { intros s'' (Hf & Hp & _). unfold order_state, promoted_before,
      promoted_events in *. by rewrite Hf, Hp. }
  destruct Heff
    as [item eta priority callback s' Hf Hp Hr Hc Hn Hd
       | h s' Hs
       | verify s' Hroot Hperm Hmin Hdue Hp Hr Hc Hn
       | s' Hs Hd
       | out s' Hs Hd Hout Hsorted]; auto.
  - unfold order_state, promoted_before, promoted_events in *.
    rewrite Hp. setoid_rewrite Hf.
    destruct Hord as [[Ha Hb]|[[Ha Hb]|Hab]]; auto.
    + left. split; by right.
    + right. left. split; [done | by right].
  - assert (forall x, x ∈ frontier s -> x <> verify -> x ∈ frontier s')
      as Hstay.
    { intros x Hx Hne. rewrite <- Hperm in Hx.
      apply elem_of_cons in Hx as [->|Hx]; done. }
    assert (promoted_events s' = promoted_events s ++ [verify]) as Hpe.
    { unfold promoted_events. rewrite Hp, fmap_app. done. }
    unfold order_state, promoted_before in *. rewrite Hpe.
    destruct Hord as [[Ha Hb]|[[Ha Hb]|(pre & mid & post & Hab)]].
    + assert (b <> verify) as Hbv.
      { intros ->. apply Hmin in Ha.
        apply key_lt_not_tuple_le in Hkey. congruence. }
      destruct (decide (a = verify)) as [->|Hav].
      * right. left. split; [|by apply Hstay].
        apply elem_of_app. right. by left.
      * left. split; by apply Hstay.
    + destruct (decide (b = verify)) as [->|Hbv].
      * right. right.
        apply list_elem_of_split in Ha as (pre & mid & ->).
        exists pre, mid, []. by rewrite <- (assoc_L (++)).
      * right. left. split; [|by apply Hstay].
        apply elem_of_app. by left.
    + right. right. exists pre, mid, (post ++ [verify]). rewrite Hab.
      rewrite <- !(assoc_L (++)). simpl. by rewrite <- !(assoc_L (++)).
Qed.

Lemma run_order calls : forall s rs s' a b,
  wf s -> run calls s = Ret (rs, s') -> key_lt a b ->
  order_state a b s -> order_state a b s'.
Proof.
  induction calls as [|[c clock] calls IH];
    intros s rs s' a b Hwf Hrun Hkey Hord; simpl in Hrun.
  - by injection Hrun as _ <-.
  - destruct (step_wf c clock s Hwf) as (r & s1 & Hstep & Hwf1 & _ & Heff).
    rewrite Hstep in Hrun.
    destruct (run calls s1) as [[rs1 s1']|e] eqn:Hrun1; [|done].
    injection Hrun as _ <-.
    eapply (IH s1); eauto. eapply effect_order; eauto.
Qed.

(** ** States the scheduler cannot tell apart *)

Lemma same_view_refl s : same_view s s.
Proof. by repeat split. Qed.

(** A call gives the same result in two states that differ only in
    other list objects, and leaves two such states. *)
Lemma step_view c clock s s' :
  wf s -> wf s' -> same_view s s' ->
  exists r s1 s1',
    step c clock s = Ret (r, s1) /\ step c clock s' = Ret (r, s1') /\
    wf s1 /\ wf s1' /\ same_view s1 s1'.
Proof.
  intros (Hself & q & Hq & Hheap) (Hself' & q' & Hq' & _)
         (Hsched & Hdriver & Hfr & Hp & Hr & Hc & Hn).
  unfold frontier in Hfr. rewrite Hq, Hq' in Hfr. simpl in Hfr. subst q'.
  destruct s as [self g w], s' as [self' g' w']. simpl in *.
  subst self' g' self.
  destruct c as [item eta priority callback| | |]; simpl.
  - rewrite (enter_eq _ item eta priority callback clock w _ Hq).
    rewrite (enter_eq _ item eta priority callback clock w' _ Hq').
    rewrite Hn.
    set (e := Event (next_id w) _ priority item callback).
    destruct (HeapqFacts.heappush_spec tuple_le tuple_le_total
                tuple_le_trans q e Hheap) as [Hheap' _].
    eexists _, _, _. split; [done|]. split; [done|].
    split; [|split].
    + split; [done|]. eexists. simpl.
      rewrite lookup_insert_eq. eauto.
    + split; [done|]. eexists. simpl.
      rewrite lookup_insert_eq. eauto.
    + split; [done|]. split; [done|]. unfold same_contents, frontier.
      simpl. rewrite !lookup_insert_eq. by repeat split.
  - assert ((g_pc g = GenStart \/ g_pc g = AtYieldNone) \/
            (g_pc g = AtYieldRemaining \/ g_pc g = AtYieldZero))
      as [Htop|Hpc] by (destruct (g_pc g); auto).
    + destruct q as [|verify l].
      * rewrite (next_empty g clock w Htop Hq).
        rewrite (next_empty g clock w' Htop Hq').
        eexists _, _, _. split; [done|]. split; [done|].
        split; [|split].
        -- split; [done|]. exists []. done.
        -- split; [done|]. exists []. done.
        -- split; [done|]. split; [done|]. unfold same_contents, frontier.
           simpl. by rewrite Hq, Hq'.
      * destruct (Z.lt_ge_cases clock (ev_eta verify)) as [Hlt|Hge].
        -- rewrite (next_waiting g clock w verify l Htop Hq Hlt).
           rewrite (next_waiting g clock w' verify l Htop Hq' Hlt).
           eexists _, _, _. split; [done|]. split; [done|].
           split; [|split].
           ++ split; [done|]. exists (verify :: l). done.
           ++ split; [done|]. exists (verify :: l). done.
           ++ split; [done|]. split; [done|].
              unfold same_contents, frontier. simpl. by rewrite Hq, Hq'.
        -- destruct (HeapqFacts.heappop_spec tuple_le tuple_le_total
                       tuple_le_trans (verify :: l) verify Hheap eq_refl)
             as (l' & Hpop & Hheap' & Hperm).
           rewrite (next_due g clock w verify l l' Htop Hq Hge Hpop).
           rewrite (next_due g clock w' verify l l' Htop Hq' Hge Hpop).
           eexists _, _, _. split; [done|]. split; [done|].
           split; [|split].
           ++ split; [done|]. exists l'. simpl.
              by rewrite lookup_insert_eq.
           ++ split; [done|]. exists l'. simpl.
              by rewrite lookup_insert_eq.
           ++ split; [done|]. split; [done|].
              unfold same_contents, frontier. simpl.
              rewrite !lookup_insert_eq. by rewrite Hp, Hr, Hc, Hn.
    + rewrite !(next_after_hint g clock _ Hpc).
      eexists _, _, _. split; [done|]. split; [done|].
      split; [|split].
      * split; [done|]. eauto.
      * split; [done|]. eauto.
      * split; [done|]. split; [done|].
        unfold same_contents, frontier. simpl. by rewrite Hq, Hq'.
  - rewrite (empty_eq _ w _ Hq), (empty_eq _ w' _ Hq').
    eexists _, _, _. split; [done|]. split; [done|].
    split; [|split].
    + split; [done|]. eauto.
    + split; [done|]. eauto.
    + split; [done|]. split; [done|].
      unfold same_contents, frontier. simpl. by rewrite Hq, Hq'.
  - destruct (queue_eq _ w _ Hq Hheap) as (Hrun & _).
    destruct (queue_eq _ w' _ Hq' Hheap) as (Hrun' & _).
    rewrite Hrun, Hrun'.
    eexists _, _, _. split; [done|]. split; [done|].
    split; [|split].
    + split; [done|]. exists q. simpl.
      by rewrite lookup_insert_ne by (by eapply fresh_list_ne).
    + split; [done|]. exists q. simpl.
      by rewrite lookup_insert_ne by (by eapply fresh_list_ne).
    + split; [done|]. split; [done|].
      unfold same_contents, frontier. simpl.
      rewrite !lookup_insert_ne by (by eapply fresh_list_ne).
      by rewrite Hq, Hq'.
Qed.

Lemma run_view calls : forall s s',
  wf s -> wf s' -> same_view s s' ->
  exists rs s1 s1',
    run calls s = Ret (rs, s1) /\ run calls s' = Ret (rs, s1') /\
    same_view s1 s1'.
Proof.
  induction calls as [|[c clock] calls IH]; intros s s' Hwf Hwf' Hview.
  - by exists [], s, s'.
  - destruct (step_view c clock s s' Hwf Hwf' Hview)
      as (r & s1 & s1' & Hstep & Hstep' & Hwf1 & Hwf1' & Hview1).
    destruct (IH s1 s1' Hwf1 Hwf1' Hview1)
      as (rs & s2 & s2' & Hrun & Hrun' & Hview2).
    exists (r :: rs), s2, s2'. simpl.
    by rewrite Hstep, Hstep', Hrun, Hrun'.
Qed.

(** ** Properties of the scheduler *)

Lemma entered_from_nexts n (clocks : list timestamp) :
  entered_from n ((fun t => (CallNext, t)) <$> clocks) = [].
Proof. induction clocks; simpl; auto. Qed.

Lemma run_from_boot_wf calls :
  exists rs s,
    run_from_boot calls = Ret (rs, s) /\ wf s /\
    frontier s ++ promoted_events s ≡ₚ entered_from 0 calls /\
    next_id (wld s) = length (entered_from 0 calls) /\
    ready (wld s) = ev_item <$> promoted_events s /\
    called (wld s) = callbacks_of (promoted_events s) /\
    Forall (fun p => (ev_eta p.1 <= p.2)%Z) (promoted (wld s)).
Proof.
  unfold run_from_boot. pose proof boot_eq as Hboot.
  destruct boot as [s0|e]; [|done]. injection Hboot as Hs0.
  destruct (run_wf calls s0 (boot_wf s0 ltac:(by rewrite boot_eq, Hs0)))
    as (rs & s & Hrun & Hwf & _ & Hperm & Hn & news & Hp & Hr & Hc & Hf).
  exists rs, s. rewrite Hs0 in *. unfold promoted_events in *.
  simpl in *. rewrite Hp.
  unfold frontier at 2 in Hperm. simpl in Hperm.
  rewrite lookup_singleton_eq in Hperm. simpl in Hperm.
  rewrite Hp in Hperm. done.
Qed.

Lemma entered_from_NoDup n calls : NoDup (ev_id <$> entered_from n calls).
Proof. rewrite entered_from_ids. apply NoDup_seq. Qed.

Lemma entered_from_stored n calls e :
  e ∈ entered_from n calls ->
  n <= ev_id e /\
  exists item eta clock,
    enter_calls calls !! (ev_id e - n) = Some (item, eta, clock) /\
    ev_item e = item /\
    ev_eta e = match eta with
               | Some d => mktime_timetuple d
               | None => clock
               end.
Proof.
  revert n. induction calls as [|[c clock] calls IH]; intros n He;
    simpl in He; [by apply elem_of_nil in He|].
  destruct c as [item eta priority callback| | |]; simpl; try by apply IH.
  apply elem_of_cons in He as [->|He]; simpl.
  - split; [done|]. rewrite Nat.sub_diag. by exists item, eta, clock.
  - destruct (IH (S n) He) as (Hn & item' & eta' & clock' & Hl & Hi & He').
    split; [lia|]. exists item', eta', clock'.
    replace (ev_id e - n) with (S (ev_id e - S n)) by lia. done.
Qed.

(** The tuples [enter] makes hold the eta cut to the whole second, or
    the time of the call. *)
Lemma entered_stored_due_time calls e :
  e ∈ entered_from 0 calls -> stored_due_time calls e.
Proof.
  intros He. destruct (entered_from_stored 0 calls e He)
    as (_ & item & eta & clock & Hl & Hi & Heta).
  rewrite Nat.sub_0_r in Hl. by exists item, eta, clock.
Qed.

Lemma stored_not_early calls e (t : timestamp) :
  stored_due_time calls e -> (ev_eta e <= t)%Z -> not_early calls (e, t).
Proof.
  intros (item & eta & clock & Hl & Hi & Heta) Ht.
  exists item, eta, clock. split; [done|]. split; [done|]. simpl.
  destruct eta as [d|]; lia.
Qed.

Lemma enter_calls_app calls1 calls2 :
  enter_calls (calls1 ++ calls2) = enter_calls calls1 ++ enter_calls calls2.
Proof.
  induction calls1 as [|[c clock] calls1 IH]; [done|].
  destruct c; simpl; by rewrite ?IH.
Qed.

Lemma enter_calls_nexts (clocks : list timestamp) :
  enter_calls ((fun t => (CallNext, t)) <$> clocks) = [].
Proof. induction clocks; simpl; auto. Qed.

(** No promotion is early for the call that entered the tuple. *)
Lemma promotions_not_early calls rs s :
  run_from_boot calls = Ret (rs, s) ->
  Forall (not_early calls) (promoted (wld s)).
Proof.
  intros Hrun.
  destruct (run_from_boot_wf calls)
    as (rs' & s' & Hrun' & _ & Hperm & _ & _ & _ & Hf).
  rewrite Hrun in Hrun'. injection Hrun' as <- <-.
  apply Forall_forall. intros [e t] Hp.
  rewrite Forall_forall in Hf. specialize (Hf _ Hp). simpl in Hf.
  apply stored_not_early; [|done]. apply entered_stored_due_time.
  rewrite <- Hperm. apply elem_of_app. right.
  unfold promoted_events. apply list_elem_of_fmap. by exists (e, t).
Qed.

(** An entry entered for 5.5 s: the [next()] at 5.0 s promotes it, half
    a second before the due time given. *)
Lemma promoted_before_due_time_given :
  match run_from_boot [(CallEnter 7 (Some 5500000%Z) 0%Z None, 0%Z);
                       (CallNext, 5000000%Z)] with
  | Ret (rs, s) =>
      rs = [Entered; Yielded (Sleep 0%Z)] /\
      ready (wld s) = [7] /\
      promoted (wld s) = [(Event 0 5000000%Z 0%Z 7 None, 5000000%Z)] /\
      due_time_given [(CallEnter 7 (Some 5500000%Z) 0%Z None, 0%Z);
                      (CallNext, 5000000%Z)]
                     (Event 0 5000000%Z 0%Z 7 None) = Some 5500000%Z /\
      (5000000 < 5500000)%Z
  | Raise _ => False
  end.
Proof. vm_compute. by repeat split. Qed.

(** C1, in the form that holds: over any sequence of calls on a new
    scheduler, every tuple entered is either still in the frontier or
    has been put on the ready queue, once and not both.  No item was
    put on the ready queue before the second its due time falls in had
    begun, that is, it was put there less than one second before the
    due time given, and not before a due time that is a whole second;
    an item entered without due time was not put there before the time
    of its [enter].  Once the iterator is driven at clocks that have
    reached every due time, two [next()] per entry, the frontier is
    empty and every tuple entered has been put on the ready queue
    exactly once. *)
Theorem no_double_promotion (calls : list (call * timestamp)) :
  exists rs s,
    run_from_boot calls = Ret (rs, s) /\
    frontier s ++ promoted_events s ≡ₚ entered_from 0 calls /\
    NoDup (ev_id <$> entered_from 0 calls) /\
    ready (wld s) = ev_item <$> promoted_events s /\
    Forall (fun p => (ev_eta p.1 <= p.2)%Z) (promoted (wld s)) /\
    Forall (not_early calls) (promoted (wld s)) /\
    forall clocks : list timestamp,
      length clocks = 2 * length (frontier s) ->
      (forall t e, t ∈ clocks -> e ∈ frontier s -> (ev_eta e <= t)%Z) ->
      exists rs' s',
        run ((fun t => (CallNext, t)) <$> clocks) s = Ret (rs', s') /\
        frontier s' = [] /\
        promoted_events s' ≡ₚ entered_from 0 calls /\
        ready (wld s') = ev_item <$> promoted_events s' /\
        Forall (fun p => (ev_eta p.1 <= p.2)%Z) (promoted (wld s')) /\
        Forall (not_early calls) (promoted (wld s')).
Proof.
  destruct (run_from_boot_wf calls)
    as (rs & s & Hrun & Hwf & Hperm & Hn & Hr & Hc & Hf).
  exists rs, s. split; [done|]. split; [done|].
  split; [apply entered_from_NoDup|]. split; [done|]. split; [done|].
  split; [by eapply promotions_not_early|].
  intros clocks Hlen Hdue.
  destruct (drive_to_empty (length (frontier s)) s clocks Hwf eq_refl
              Hlen Hdue) as (rs' & s' & Hrun' & Hempty).
  destruct (run_wf ((fun t => (CallNext, t)) <$> clocks) s Hwf)
    as (rs2 & s2 & Hrun2 & Hwf2 & _ & Hperm2 & _ & news & Hp2 & Hr2 & _
        & Hf2).
  rewrite Hrun' in Hrun2. injection Hrun2 as <- <-.
  exists rs', s'. split; [done|]. split; [done|].
  rewrite entered_from_nexts, app_nil_r, Hempty in Hperm2.
  simpl in Hperm2. split; [by rewrite Hperm2|].
  assert (run_from_boot (calls ++ ((fun t => (CallNext, t)) <$> clocks))
          = Ret (rs ++ rs', s')) as Hall.
  { unfold run_from_boot in *. destruct boot as [s0|e]; [|done].
    by rewrite run_app, Hrun, Hrun'. }
  apply promotions_not_early in Hall.
  rewrite Forall_forall in Hall.
  split; [|split].
  - unfold promoted_events in *. by rewrite Hp2, Hr2, Hr, !fmap_app.
  - rewrite Hp2. by apply Forall_app.
  - apply Forall_forall. intros p Hp.
    destruct (Hall p Hp) as (item & eta & clock & Hl & Hrest).
    rewrite enter_calls_app, enter_calls_nexts, app_nil_r in Hl.
    by exists item, eta, clock.
Qed.

Lemma key_lt_irrefl a : ~ key_lt a a.
Proof. unfold key_lt. lia. Qed.

Lemma due_time_given_stored calls e d :
  stored_due_time calls e -> due_time_given calls e = Some d ->
  (ev_eta e <= d < ev_eta e + 1000000)%Z \/ ev_eta e = d.
Proof.
  intros (item & eta & clock & Hl & _ & Heta) Hd.
  unfold due_time_given in Hd. unfold datetime, timestamp in *.
  rewrite Hl in Hd.
  destruct eta as [d'|]; injection Hd as <-; [left; lia | by right].
Qed.

(** Entries entered for 5.1 s and for 5.9 s are both stored as due at
    5 s: once both are due, the one entered for 5.9 s, whose item is
    the smaller, is promoted first. *)
Lemma later_due_time_promoted_first :
  match run_from_boot [(CallEnter 2 (Some 5100000%Z) 0%Z None, 0%Z);
                       (CallEnter 1 (Some 5900000%Z) 0%Z None, 0%Z);
                       (CallNext, 6000000%Z);
                       (CallNext, 6000000%Z);
                       (CallNext, 6000000%Z)] with
  | Ret (rs, s) =>
      ready (wld s) = [1; 2] /\
      promoted_events s = [Event 1 5000000%Z 0%Z 1 None;
                           Event 0 5000000%Z 0%Z 2 None] /\
      due_time_given [(CallEnter 2 (Some 5100000%Z) 0%Z None, 0%Z);
                      (CallEnter 1 (Some 5900000%Z) 0%Z None, 0%Z)]
                     (Event 0 5000000%Z 0%Z 2 None) = Some 5100000%Z /\
      due_time_given [(CallEnter 2 (Some 5100000%Z) 0%Z None, 0%Z);
                      (CallEnter 1 (Some 5900000%Z) 0%Z None, 0%Z)]
                     (Event 1 5000000%Z 0%Z 1 None) = Some 5900000%Z
  | Raise _ => False
  end.
Proof. vm_compute. by repeat split. Qed.

(** C5, in the form that holds: the due time a tuple of the frontier
    holds is the eta given cut to the whole second, or the time of the
    [enter] when no eta was given.  Take two tuples [a] and [b] that
    are in the frontier together, [a] holding the smaller due time, or
    the same due time and the smaller priority; this is so in
    particular when the due time asked for [a] is at least one second
    before the one asked for [b].  Whatever calls follow, if the item
    of [b] has been put on the ready queue then the item of [a] was put
    there before it. *)
Theorem promotion_order (calls1 calls2 : list (call * timestamp)) :
  exists rs1 s1 rs2 s2,
    run_from_boot calls1 = Ret (rs1, s1) /\
    run calls2 s1 = Ret (rs2, s2) /\
    (forall e, e ∈ frontier s1 -> stored_due_time calls1 e) /\
    forall a b,
      a ∈ frontier s1 -> b ∈ frontier s1 ->
      (key_lt a b \/
       exists dA dB,
         due_time_given calls1 a = Some dA /\
         due_time_given calls1 b = Some dB /\
         (dA + 1000000 <= dB)%Z) ->
      b ∈ promoted_events s2 ->
      put_before a b s2.
Proof.
  destruct (run_from_boot_wf calls1)
    as (rs1 & s1 & Hrun1 & Hwf1 & Hperm1 & Hn1 & _).
  destruct (run_wf calls2 s1 Hwf1)
    as (rs2 & s2 & Hrun2 & Hwf2 & _ & Hperm2 & _).
  assert (forall e, e ∈ frontier s1 -> stored_due_time calls1 e) as Hstored.
  { intros e He. apply entered_stored_due_time. rewrite <- Hperm1.
    apply elem_of_app. by left. }
  exists rs1, s1, rs2, s2. split; [done|]. split; [done|].
  split; [done|].
  intros a b Ha Hb Hcases Hbp.
  assert (key_lt a b) as Hkey.
  { destruct Hcases as [?|(dA & dB & HdA & HdB & Hapart)]; [done|].
    pose proof (due_time_given_stored calls1 a dA (Hstored a Ha) HdA).
    pose proof (due_time_given_stored calls1 b dB (Hstored b Hb) HdB).
    left. lia. }
  assert (order_state a b s2) as Hord.
  { apply (run_order calls2 s1 rs2 s2 a b Hwf1 Hrun2 Hkey). by left. }
  assert (NoDup (frontier s2 ++ promoted_events s2)) as Hnodup.
  { apply (NoDup_fmap_1 ev_id). rewrite Hperm2, Hperm1, Hn1.
    rewrite <- (Nat.add_0_l (length (entered_from 0 calls1))).
    rewrite <- entered_from_app. apply entered_from_NoDup. }
  apply NoDup_app in Hnodup as (_ & Hdisj & _).
  assert (promoted_before a b s2) as (pre & mid & post & Hbefore).
  { destruct Hord as [[_ Hbf]|[[_ Hbf]|Hab]]; [| |done];
      by destruct (Hdisj b Hbf). }
  exists pre, mid, post. split; [done|].
  destruct (run_from_boot_wf (calls1 ++ calls2))
    as (rs & s & Hrun & _ & _ & _ & Hready & _).
  assert (s = s2) as ->.
  { unfold run_from_boot in *. destruct boot as [s0|e]; [|done].
    rewrite run_app, Hrun1, Hrun2 in Hrun. by injection Hrun as _ <-. }
  rewrite Hready, Hbefore.
  by rewrite fmap_app, fmap_cons, fmap_app, fmap_cons.
Qed.

Lemma StronglySorted_key_le l :
  StronglySorted (fun a b => tuple_le a b = true) l ->
  StronglySorted key_le l.
Proof.
  induction 1 as [|x l Hl IH Hx]; constructor; [done|].
  eapply Forall_impl; [exact Hx|]. intros y Hy. by apply tuple_le_key_le.
Qed.

(** C7: reading the [queue] property of a scheduler, in any state its
    calls can bring it to, returns the tuples of the frontier in
    ascending order of (due time, priority).  It only makes one new
    list object, which it leaves empty: the scheduler's own list and
    everything else are as before, [empty()] answers the same, and any
    calls that follow return the same results and leave the same
    frontier, ready queue and promotions as without the reading. *)
Theorem queue_leaves_frontier (calls1 calls2 : list (call * timestamp)) :
  exists rs1 s1 out w',
    run_from_boot calls1 = Ret (rs1, s1) /\
    queue (sched s1) (wld s1) = (Ret out, w') /\
    out ≡ₚ frontier s1 /\
    StronglySorted key_le out /\
    w' = World (<[fresh (dom (lists (wld s1))) := []]> (lists (wld s1)))
               (next_id (wld s1))
               (ready (wld s1)) (called (wld s1)) (promoted (wld s1)) /\
    lists w' !! _queue (sched s1) = lists (wld s1) !! _queue (sched s1) /\
    (empty (sched s1) w').1 = (empty (sched s1) (wld s1)).1 /\
    exists rs2 s2 s2',
      run calls2 s1 = Ret (rs2, s2) /\
      run calls2 (System (sched s1) (driver s1) w') = Ret (rs2, s2') /\
      same_view s2 s2'.
Proof.
  destruct (run_from_boot_wf calls1) as (rs1 & s1 & Hrun1 & Hwf1 & _).
  pose proof (wf_frontier s1 Hwf1) as [Hq Hheap].
  destruct (queue_eq _ _ _ Hq Hheap) as (Hqueue & Hperm & Hsorted).
  pose proof Hwf1 as (Hself & _).
  set (w' := World (<[fresh (dom (lists (wld s1))) := []]>
                      (lists (wld s1)))
                   (next_id (wld s1))
                   (ready (wld s1)) (called (wld s1)) (promoted (wld s1))).
  assert (lists w' !! _queue (sched s1)
          = lists (wld s1) !! _queue (sched s1)) as Hsame.
  { simpl. by rewrite lookup_insert_ne by (by eapply fresh_list_ne). }
  exists rs1, s1, (drain (length (frontier s1)) (frontier s1)), w'.
  split; [done|]. split; [done|]. split; [done|].
  split; [by apply StronglySorted_key_le|]. split; [done|].
  split; [done|]. split.
  { rewrite (empty_eq _ (wld s1) _ Hq).
    rewrite (empty_eq _ w' (frontier s1)); [done|]. by rewrite Hsame. }
  set (s1' := System (sched s1) (driver s1) w').
  assert (wf s1') as Hwf1'.
  { split; [done|]. exists (frontier s1).
    split; [|done]. unfold s1'. simpl wld. simpl sched.
    by rewrite Hsame. }
  destruct (run_view calls2 s1 s1' Hwf1 Hwf1')
    as (rs2 & s2 & s2' & Hrun2 & Hrun2' & Hview);
    [|by exists rs2, s2, s2'].
  split; [done|]. split; [done|]. unfold same_contents, frontier, s1'.
  simpl wld. simpl sched. by rewrite Hsame.
Qed.

(** C2: a scheduler with one entry due at 10 s.  The [next()] at 1 s
    yields the remaining 9 s; the [next()] at 2 s resumes after that
    [yield], reaches the [yield None] that ends the loop body and
    yields [None], although the frontier still holds the entry and its
    due time is 8 s away. *)
Theorem next_after_hint_yields_None :
  match run_from_boot [(CallEnter 7 (Some 10000000%Z) 0%Z None, 0%Z);
                       (CallNext, 1000000%Z);
                       (CallNext, 2000000%Z)] with
  | Ret (rs, s) =>
      rs = [Entered; Yielded (Sleep 9000000%Z); Yielded NoHint] /\
      frontier s = [Event 0 10000000%Z 0%Z 7 None] /\
      ready (wld s) = []
  | Raise _ => False
  end.
Proof. vm_compute. by repeat split. Qed.

(** The first two states of the iterator's protocol hold whenever a
    [next()] starts at the top of the loop, and an empty frontier gives
    [None] wherever the iterator was suspended. *)
Lemma next_on_empty_frontier s clock :
  wf s -> frontier s = [] ->
  exists g,
    step CallNext clock s = Ret (Yielded NoHint, System (sched s) g (wld s)).
Proof.
  intros Hwf Hempty. destruct (top_or_hint s) as [Htop|Hhint].
  - rewrite step_next_empty by done. eauto.
  - rewrite step_next_after_hint by done. eauto.
Qed.

(** Entry 0 is due at 5 s and entry 1 is entered without a due time at
    10 s: the [next()] at 10 s reaches the dispatch step and promotes
    entry 0; the entry without a due time stays in the frontier. *)
Lemma enter_without_eta_waits_its_turn :
  match run_from_boot [(CallEnter 1 (Some 5000000%Z) 0%Z None, 0%Z);
                       (CallEnter 2 None 0%Z None, 10000000%Z);
                       (CallNext, 10000000%Z)] with
  | Ret (rs, s) =>
      rs = [Entered; Entered; Yielded (Sleep 0%Z)] /\
      promoted_events s = [Event 0 5000000%Z 0%Z 1 None] /\
      ready (wld s) = [1] /\
      frontier s = [Event 1 10000000%Z 0%Z 2 None]
  | Raise _ => False
  end.
Proof. vm_compute. by repeat split. Qed.

Lemma heappush_inj (l : list event) x y :
  Heapq.heap_inv tuple_le l ->
  Heapq.heappush tuple_le l x = Heapq.heappush tuple_le l y -> x = y.
Proof.
  intros Hheap Heq.
  destruct (HeapqFacts.heappush_spec tuple_le tuple_le_total
              tuple_le_trans l x Hheap) as [_ Hx].
  destruct (HeapqFacts.heappush_spec tuple_le tuple_le_total
              tuple_le_trans l y Hheap) as [_ Hy].
  rewrite Heq, Hy in Hx.
  change ([y] ++ l ≡ₚ [x] ++ l) in Hx.
  apply Permutation_app_inv_r, Permutation_singleton_r in Hx.
  by injection Hx.
Qed.

(** C6, in the form that holds: [enter] without [eta] stores the tuple
    with the clock value of the call as its due time, as it is; an
    [enter] with an eta stores the same tuple exactly when the eta cut
    to the whole second is that clock value.  As long as the tuple is
    in the frontier, a [next()] that starts at the top of the loop at a
    clock not earlier than that takes the due branch: it promotes the
    head of the frontier, which is not above the tuple in the order of
    the tuples, and yields 0; the head is this tuple whenever every
    other entry holds a strictly larger (due time, priority). *)
Theorem enter_without_eta_is_due (calls : list (call * timestamp))
    (item : nat) (priority : Z) (callback : option nat)
    (clock : timestamp) :
  exists rs s s1,
    run_from_boot calls = Ret (rs, s) /\
    step (CallEnter item None priority callback) clock s
      = Ret (Entered, s1) /\
    let e := Event (next_id (wld s)) clock priority item callback in
    e ∈ frontier s1 /\
    frontier s1 ≡ₚ e :: frontier s /\
    (forall d : datetime,
       step (CallEnter item (Some d) priority callback) clock s
         = Ret (Entered, s1) <->
       (d / 1000000 * 1000000)%Z = clock) /\
    forall calls2 rs2 s2 (clock' : timestamp),
      run calls2 s1 = Ret (rs2, s2) -> e ∈ frontier s2 -> at_top s2 ->
      (clock <= clock')%Z ->
      exists verify s3,
        frontier s2 !! 0 = Some verify /\
        tuple_le verify e = true /\
        step CallNext clock' s2 = Ret (Yielded (Sleep 0%Z), s3) /\
        promoted (wld s3) = promoted (wld s2) ++ [(verify, clock')] /\
        ready (wld s3) = ready (wld s2) ++ [ev_item verify] /\
        ((forall x, x ∈ frontier s2 -> x <> e -> key_lt e x) ->
         verify = e).
Proof.
  destruct (run_from_boot_wf calls) as (rs & s & Hrun & Hwf & _).
  destruct (step_wf (CallEnter item None priority callback) clock s Hwf)
    as (r & s1 & Hstep & Hwf1 & _ & Heff).
  inversion Heff as [? ? ? ? ? Hf _ _ _ _ _| | | |]; subst.
  exists rs, s, s1. split; [done|]. split; [done|]. simpl.
  split; [rewrite Hf; by left|]. split; [done|]. split.
  { intros d. rewrite <- Hstep. simpl.
    destruct (wf_frontier s Hwf) as [Hq Hheap].
    rewrite !(enter_eq _ _ _ _ _ _ _ _ Hq). split.
    - intros Heq. injection Heq as Heq.
      apply (f_equal (fun m => m !! _queue (sched s))) in Heq.
      rewrite !lookup_insert_eq in Heq. injection Heq as Heq.
      apply heappush_inj in Heq; [|done]. by injection Heq.
    - unfold mktime_timetuple. by intros ->. }
  intros calls2 rs2 s2 clock' Hrun2 He Htop Hclock.
  destruct (run_wf calls2 s1 Hwf1) as (rs2' & s2' & Hrun2' & Hwf2 & _).
  rewrite Hrun2 in Hrun2'. injection Hrun2' as <- <-.
  destruct (wf_frontier s2 Hwf2) as [_ Hheap].
  destruct (frontier s2) as [|verify l] eqn:Hfr; [by inversion He|].
  assert (tuple_le verify
            (Event (next_id (wld s)) clock priority item callback) = true)
    as Hmin.
  { apply list_elem_of_lookup in He as [i Hi].
    eapply (HeapqFacts.heap_inv_root_min tuple_le tuple_le_total
              tuple_le_trans (verify :: l)); eauto. }
  assert (ev_eta verify <= clock')%Z as Hdue.
  { apply tuple_le_key_le in Hmin. unfold key_le in Hmin. simpl in Hmin.
    lia. }
  destruct (step_next_due s2 clock' verify l Hwf2 Htop Hfr Hdue)
    as (s3 & Hstep3 & _ & _ & _ & _ & Hp & Hr & _).
  exists verify, s3. split; [done|]. split; [done|]. split; [done|].
  split; [done|]. split; [done|].
  intros Hleast.
  destruct (decide
              (verify = Event (next_id (wld s)) clock priority item callback))
    as [|Hne]; [done|].
  assert (key_lt (Event (next_id (wld s)) clock priority item callback)
                 verify) as Hlt by (apply Hleast; [by left | done]).
  apply key_lt_not_tuple_le in Hlt. congruence.
Qed.

(** The theorems above at work on the schedule [two_entries]. *)

Lemma two_entries_frontier rs s :
  run_from_boot two_entries = Ret (rs, s) ->
  frontier s = [Event 1 3000000%Z 0%Z 2 None; Event 0 5000000%Z 0%Z 1 None].
Proof. intros Hrun. vm_compute in Hrun. by injection Hrun as _ <-. Qed.

Lemma no_double_promotion_witness :
  exists rs s rs' s',
    run_from_boot two_entries = Ret (rs, s) /\
    run four_nexts s = Ret (rs', s') /\
    frontier s' = [] /\
    promoted_events s' ≡ₚ entered_from 0 two_entries.
Proof.
  destruct (no_double_promotion two_entries)
    as (rs & s & Hrun & _ & _ & _ & _ & _ & Hdrive).
  pose proof (two_entries_frontier rs s Hrun) as Hfr.
  destruct (Hdrive (replicate 4 6000000%Z))
    as (rs' & s' & Hrun' & Hempty & Hperm & _).
  - by rewrite Hfr.
  - intros t e Ht He. rewrite Hfr in He.
    apply elem_of_replicate in Ht as [-> _].
    repeat (apply elem_of_cons in He as [->|He]); simpl; try lia.
    by apply elem_of_nil in He.
  - by exists rs, s, rs', s'.
Defined.

Lemma promotion_order_witness :
  exists rs1 s1 rs2 s2,
    run_from_boot two_entries = Ret (rs1, s1) /\
    run four_nexts s1 = Ret (rs2, s2) /\
    put_before (Event 1 3000000%Z 0%Z 2 None)
               (Event 0 5000000%Z 0%Z 1 None) s2 /\
    ready (wld s2) = [2; 1].
Proof.
  destruct (promotion_order two_entries four_nexts)
    as (rs1 & s1 & rs2 & s2 & Hrun1 & Hrun2 & _ & Horder).
  exists rs1, s1, rs2, s2. split; [done|]. split; [done|].
  pose proof (two_entries_frontier rs1 s1 Hrun1) as Hfr.
  split.
  - apply Horder.
    + rewrite Hfr. by left.
    + rewrite Hfr. right. by left.
    + right. exists 3000000%Z, 5000000%Z. split; [reflexivity|].
      split; [reflexivity|]. lia.
    + pose proof Hrun1 as Hval1. vm_compute in Hval1.
      injection Hval1 as _ <-.
      pose proof Hrun2 as Hval2. vm_compute in Hval2.
      injection Hval2 as _ <-.
      right. by left.
  - pose proof Hrun1 as Hval1. vm_compute in Hval1.
    injection Hval1 as _ <-.
    pose proof Hrun2 as Hval2. vm_compute in Hval2.
    by injection Hval2 as _ <-.
Defined.

(** An entry is waiting for 50 s when a second one is entered without
    eta at 10.5 s: the [next()] at 10.5 s promotes the second one. *)
Lemma enter_without_eta_is_due_witness :
  exists rs s s1 s3,
    run_from_boot [(CallEnter 1 (Some 50000000%Z) 0%Z None, 0%Z)]
      = Ret (rs, s) /\
    step (CallEnter 2 None 0%Z None) 10500000%Z s = Ret (Entered, s1) /\
    step (CallEnter 2 (Some 10500000%Z) 0%Z None) 10500000%Z s
      <> Ret (Entered, s1) /\
    step CallNext 10500000%Z s1 = Ret (Yielded (Sleep 0%Z), s3) /\
    ready (wld s3) = [2].
Proof.
  destruct (enter_without_eta_is_due
              [(CallEnter 1 (Some 50000000%Z) 0%Z None, 0%Z)]
              2 0%Z None 10500000%Z)
    as (rs & s & s1 & Hrun & Hstep & _ & _ & Hsame & Hnext).
  pose proof Hrun as Hboot. vm_compute in Hboot. injection Hboot as _ <-.
  pose proof Hstep as Hval. vm_compute in Hval. injection Hval as <-.
  destruct (Hnext [] [] _ 10500000%Z eq_refl)
    as (verify & s3 & _ & _ & Hstep3 & _ & Hready & Hleast).
  - vm_compute. by left.
  - by left.
  - lia.
  - eexists rs, _, _, s3. split; [exact Hrun|]. split; [exact Hstep|].
    split.
    + intros Hd. apply Hsame in Hd. vm_compute in Hd. discriminate.
    + split; [exact Hstep3|]. rewrite Hready, Hleast; [done|].
      intros x Hx Hne. vm_compute in Hx.
      repeat (apply elem_of_cons in Hx as [->|Hx]); try done.
      * left. simpl. lia.
      * by apply elem_of_nil in Hx.
Defined.

(** ** The control plane *)

Ltac py_unfold :=
  unfold dispatch_from_message, execute, call_with_kwargs, get_exposed,
    call_handler,
    Control_revoke, Control_rate_limit, getattr, dict_copy, dict_pop,
    dict_pop_default,
    read_dict, revoked_add, tasks_getitem, set_rate_limit, logger_warn,
    logger_error, logger_log, try_except, set_dicts, bind, ret, raise,
    modify, get in *.

(** Calling a handler leaves the dict objects alone. *)
Lemma call_handler_dicts panel h kw w :
  dicts (call_handler panel h kw w).2 = dicts w.
Proof.
  py_unfold. case_bool_decide; [done|].
  destruct h.
  - by destruct (kw !! "task_id").
  - destruct (kw !! "task_name") as [[| |n]|]; try done;
      destruct (kw !! "rate_limit") as [r|]; try done; simpl;
      try (by destruct (truthy r)).
    destruct (tasks w !! n) as [t|]; [|done]. simpl.
    destruct (objects w !! t); [|done]. simpl. by destruct (truthy r).
Qed.

Lemma execute_dicts self command kwargs w :
  dicts (execute self command kwargs w).2 = dicts w.
Proof.
  unfold execute, call_with_kwargs, get_exposed, try_except, getattr,
    logger_error,
    logger_log, read_dict, bind, ret, raise, modify.
  destruct command as [|z|attr]; try done.
  destruct (Control_attribute attr) as [[[h [[]|]]| |]|]; try done. simpl.
  destruct (dicts w !! kwargs) as [kw|]; [|done].
  apply call_handler_dicts.
Qed.

(** [dispatch_from_message], step by step: the copy is made at a new
    reference, ["command"] and ["destination"] are popped from the
    copy, and the rest of the copy is what [execute] gets. *)
Lemma dispatch_from_message_eq self message w d :
  dicts w !! message = Some d ->
  let r := fresh (dom (dicts w)) in
  dispatch_from_message self message w =
    match d !! "command" with
    | None => (Raise KeyError, set_dicts <[r := d]> w)
    | Some command =>
        let destination := default VNone (d !! "destination") in
        let w' :=
          set_dicts <[r := delete "destination" (delete "command" d)]> w in
        if negb (truthy destination)
           || value_eqb destination (hostname self)
        then execute self command r w'
        else (Ret VNone, w')
    end.
Proof.
  intros Hd r.
  unfold dispatch_from_message, dict_copy, dict_pop, dict_pop_default,
    read_dict, set_dicts, bind, ret, raise, modify.
  rewrite Hd. fold r. simpl. rewrite lookup_insert_eq.
  destruct (d !! "command") as [command|] eqn:Hcommand; [|done].
  simpl. rewrite insert_insert_eq, lookup_insert_eq.
  rewrite lookup_delete_ne by done.
  destruct (d !! "destination") as [destination|] eqn:Hdest; simpl.
  - rewrite insert_insert_eq. by destruct (_ || _).
  - rewrite (delete_id (delete "command" d) "destination")
      by (by rewrite lookup_delete_ne).
    by destruct (value_eqb VNone (hostname self)).
Qed.

Lemma fresh_dict_ne (m : gmap loc (gmap string value)) r d :
  m !! r = Some d -> fresh (dom m) <> r.
Proof.
  intros Hr Heq. apply (is_fresh (dom m)). rewrite Heq.
  apply elem_of_dom. eauto.
Qed.

Lemma insert_fresh_subseteq (m : gmap loc (gmap string value)) d :
  m ⊆ <[fresh (dom m) := d]> m.
Proof.
  apply insert_subseteq, not_elem_of_dom, is_fresh.
Qed.

(** A name the panel does not have: the error is logged and nothing
    else happens. *)
Lemma execute_unknown self attr kwargs w :
  Control_attribute attr = None ->
  execute self (VStr attr) kwargs w =
    (Ret VNone,
     CWorld (dicts w) (objects w) (tasks w) (revoked w)
            (log w ++ [LogRecord ERROR "No such control command: %s"
                                 [VStr attr]])
            (gethostname w)).
Proof.
  intros Hattr. unfold execute, try_except, getattr, logger_error,
    logger_log, bind, ret, raise, modify. by rewrite Hattr.
Qed.

(** C3: [execute] with the name of an attribute the panel has but that
    is not marked with [@expose], here [__init__]: reading
    [control.exposed] raises [AttributeError], outside the [try], so the
    exception reaches the caller and no error is logged. *)
Theorem execute_unmarked_raises self kwargs w :
  Control_attribute "__init__" = Some OtherObject /\
  execute self (VStr "__init__") kwargs w = (Raise AttributeError, w).
Proof. split; reflexivity. Qed.

(** C9: whatever the message and whatever the call does, every dict
    object that was there before [dispatch_from_message] is unchanged
    after it; the caller's message still has all of its fields,
    ["command"] and ["destination"] included. *)
Theorem dispatch_keeps_message self message w :
  dicts w ⊆ dicts (dispatch_from_message self message w).2 /\
  forall d, dicts w !! message = Some d ->
            dicts (dispatch_from_message self message w).2 !! message
              = Some d.
Proof.
  assert (dicts w ⊆ dicts (dispatch_from_message self message w).2) as Hsub.
  { destruct (dicts w !! message) as [d|] eqn:Hd.
    - rewrite (dispatch_from_message_eq self message w d Hd).
      destruct (d !! "command") as [command|]; simpl;
        [|apply insert_fresh_subseteq].
      destruct (_ || _); simpl; [|apply insert_fresh_subseteq].
      rewrite execute_dicts. simpl. apply insert_fresh_subseteq.
    - unfold dispatch_from_message, dict_copy, bind. by rewrite Hd. }
  split; [done|]. intros d Hd. by eapply lookup_weaken.
Qed.

(** C10: a message without a ["command"] key: popping it from the copy
    raises [KeyError], which reaches the caller.  Only the copy has
    been made by then: the destination is not looked at, no handler
    runs and nothing is logged. *)
Theorem dispatch_without_command self message w d :
  dicts w !! message = Some d -> d !! "command" = None ->
  exists w',
    dispatch_from_message self message w = (Raise KeyError, w') /\
    w' = set_dicts <[fresh (dom (dicts w)) := d]> w /\
    log w' = log w /\ revoked w' = revoked w /\
    tasks w' = tasks w /\ objects w' = objects w.
Proof.
  intros Hd Hcommand. eexists. split; [|by repeat split].
  rewrite (dispatch_from_message_eq self message w d Hd).
  by rewrite Hcommand.
Qed.

(** C8: [Control.rate_limit] for a name that is not registered returns
    [None] and leaves the state as it was: nothing is logged and
    nothing is entered in the registry.  For a registered name only
    the [rate_limit] attribute of that task object is assigned. *)
Theorem rate_limit_registry self task_name rate_limit kwargs w :
  ((forall n, task_name = VStr n -> tasks w !! n = None) ->
   Control_rate_limit self task_name rate_limit kwargs w = (Ret VNone, w))
  /\
  (forall n t o,
     task_name = VStr n -> tasks w !! n = Some t ->
     objects w !! t = Some o ->
     exists w' record,
       Control_rate_limit self task_name rate_limit kwargs w
         = (Ret VNone, w') /\
       tasks w' = tasks w /\
       objects w' = <[t := Task (name o) rate_limit (other o)]> (objects w)
       /\ dicts w' = dicts w /\ revoked w' = revoked w /\
       log w' = log w ++ [record] /\ levelname record = WARNING).
Proof.
  split.
  - intros Habsent. py_unfold.
    destruct task_name as [|z|n]; try done. by rewrite (Habsent n eq_refl).
  - intros n t o -> Ht Ho. py_unfold. rewrite Ht. simpl. rewrite Ho. simpl.
    destruct (truthy rate_limit); simpl; eexists _, _; by repeat split.
Qed.

Lemma dispatch_without_command_witness :
  exists w',
    dispatch_from_message this_host 0
      (world_with {[ "task_id" := VStr "X" ]}) = (Raise KeyError, w') /\
    w' = set_dicts <[1 := {[ "task_id" := VStr "X" ]}]>
                   (world_with {[ "task_id" := VStr "X" ]}) /\
    log w' = [] /\ revoked w' = ∅ /\ tasks w' = ∅ /\ objects w' = ∅.
Proof.
  exact (dispatch_without_command this_host 0
           (world_with {[ "task_id" := VStr "X" ]})
           {[ "task_id" := VStr "X" ]} eq_refl eq_refl).
Defined.

(** A revoke message whose destination is the empty string, on the
    worker named this-host: the destination differs from the worker's
    name, and yet the command is executed. *)
Lemma dispatch_empty_destination_executes :
  VStr "" <> hostname this_host /\
  revoke_X_for "" !! "destination" = Some (VStr "") /\
  (dispatch_from_message this_host 0 (world_with (revoke_X_for ""))).1
    = Ret VNone /\
  revoked
    (dispatch_from_message this_host 0 (world_with (revoke_X_for ""))).2
    = {[ VStr "X" ]} /\
  log (dispatch_from_message this_host 0 (world_with (revoke_X_for ""))).2
    = [LogRecord WARNING "Task %s revoked." [VStr "X"]].
Proof.
  split; [done|]. split; [done|]. vm_compute. by repeat split.
Qed.

Lemma execute_revoke self kwargs w kw task_id :
  dicts w !! kwargs = Some kw -> kw !! "self" = None ->
  kw !! "task_id" = Some task_id ->
  execute self (VStr "revoke") kwargs w =
    (Ret VNone,
     CWorld (dicts w) (objects w) (tasks w) ({[task_id]} ∪ revoked w)
            (log w ++ [LogRecord WARNING "Task %s revoked." [task_id]])
            (gethostname w)).
Proof.
  intros Hkw Hself Hid. py_unfold. simpl. rewrite Hkw, Hself. simpl.
  by rewrite Hid.
Qed.

(** C4, in the form that holds, for a dispatcher made for this worker
    with the worker's own hostname, a non-empty name: the dispatcher
    and its panel both go by that name.  A message whose destination is
    a non-empty value other than this worker's hostname is dropped: the
    call returns [None] and has done nothing but copy the message.  A
    message without destination, with a destination that is false
    ([None], the empty string, zero) or with this worker's hostname is
    passed to [execute], the rest of its fields being the keyword
    arguments; for a revoke message with a task id the call returns
    [None] and the task id is in the set of revoked tasks afterwards. *)
Theorem dispatch_addressing identity message w d command :
  truthy identity = true ->
  dicts w !! message = Some d -> d !! "command" = Some command ->
  exists self,
    ControlDispatch__init__ identity w = (Ret self, w) /\
    hostname self = identity /\
    panel_hostname (panel self) = identity /\
    let r := fresh (dom (dicts w)) in
    let w' :=
      set_dicts <[r := delete "destination" (delete "command" d)]> w in
    (forall destination,
       d !! "destination" = Some destination ->
       truthy destination = true -> destination <> identity ->
       dispatch_from_message self message w = (Ret VNone, w')) /\
    ((d !! "destination" = None \/
      exists destination,
        d !! "destination" = Some destination /\
        (truthy destination = false \/ destination = identity)) ->
     dispatch_from_message self message w = execute self command r w' /\
     forall task_id,
       command = VStr "revoke" -> d !! "task_id" = Some task_id ->
       d !! "self" = None ->
       exists w'',
         dispatch_from_message self message w = (Ret VNone, w'') /\
         task_id ∈ revoked w'').
Proof.
  intros Hidentity Hd Hcommand.
  exists {| hostname := identity;
            panel := {| panel_hostname := identity |} |}.
  split.
  { unfold ControlDispatch__init__, Control__init__, bind, ret, get.
    by rewrite Hidentity. }
  split; [done|]. split; [done|].
  set (self := {| hostname := identity;
                  panel := {| panel_hostname := identity |} |}).
  intros r w'.
  pose proof (dispatch_from_message_eq self message w d Hd) as Heq.
  rewrite Hcommand in Heq. fold r in Heq. cbv zeta in Heq. fold w' in Heq.
  split.
  - intros destination Hdest Htruthy Hne. rewrite Heq, Hdest. simpl.
    rewrite Htruthy. unfold value_eqb. by rewrite bool_decide_eq_false_2.
  - intros Haddressed.
    assert (dispatch_from_message self message w = execute self command r w')
      as Hexec.
    { rewrite Heq.
      destruct Haddressed as [->|(destination & -> & [Hfalse| ->])]; simpl.
      - done.
      - by rewrite Hfalse.
      - unfold value_eqb. rewrite bool_decide_eq_true_2 by done.
        by rewrite orb_true_r. }
    split; [done|]. intros task_id -> Hid Hself. rewrite Hexec.
    rewrite (execute_revoke self r w'
               (delete "destination" (delete "command" d)) task_id).
    + eexists. split; [done|]. simpl.
      apply elem_of_union_l. by apply elem_of_singleton.
    + unfold w', set_dicts. simpl. by rewrite lookup_insert_eq.
    + by rewrite !lookup_delete_ne.
    + by rewrite !lookup_delete_ne.
Qed.

(** On the worker this-host: a revoke message for other-host is
    dropped, one for this-host is executed. *)
Lemma dispatch_addressing_witness :
  ControlDispatch__init__ (VStr "this-host")
    (world_with (revoke_X_for "other-host"))
    = (Ret this_host, world_with (revoke_X_for "other-host")) /\
  (dispatch_from_message this_host 0
     (world_with (revoke_X_for "other-host"))).1 = Ret VNone /\
  revoked (dispatch_from_message this_host 0
             (world_with (revoke_X_for "other-host"))).2 = ∅ /\
  exists w'',
    dispatch_from_message this_host 0
      (world_with (revoke_X_for "this-host")) = (Ret VNone, w'') /\
    VStr "X" ∈ revoked w''.
Proof.
  split; [reflexivity|]. unfold this_host.
  destruct (dispatch_addressing (VStr "this-host") 0
              (world_with (revoke_X_for "other-host"))
              (revoke_X_for "other-host") (VStr "revoke")
              eq_refl eq_refl eq_refl)
    as (self & Hinit & _ & _ & Hdrop & _).
  injection Hinit as <-.
  rewrite (Hdrop (VStr "other-host") eq_refl eq_refl ltac:(discriminate)).
  split; [reflexivity|]. split; [reflexivity|].
  destruct (dispatch_addressing (VStr "this-host") 0
              (world_with (revoke_X_for "this-host"))
              (revoke_X_for "this-host") (VStr "revoke")
              eq_refl eq_refl eq_refl)
    as (self & Hinit & _ & _ & _ & Hexec).
  injection Hinit as <-.
  destruct Hexec as [_ Hrevoke].
  { right. exists (VStr "this-host"). split; [done|]. by right. }
  exact (Hrevoke (VStr "X") eq_refl eq_refl eq_refl).
Defined.

(** The theorems above at work on small worlds. *)

Lemma rate_limit_registry_witness :
  Control_rate_limit (panel this_host) (VStr "nonexistent-type") (VInt 5) ∅
                     world_with_task
    = (Ret VNone, world_with_task) /\
  exists w' record,
    Control_rate_limit (panel this_host) (VStr "tasks.add") (VInt 5) ∅
                       world_with_task
      = (Ret VNone, w') /\
    tasks w' = tasks world_with_task /\
    objects w' = {[ 0 := Task "tasks.add" (VInt 5) 0 ]} /\
    log w' = [record].
Proof.
  destruct (rate_limit_registry (panel this_host) (VStr "nonexistent-type")
              (VInt 5) ∅ world_with_task) as [Habsent _].
  split.
  - apply Habsent. by intros n [= <-].
  - destruct (rate_limit_registry (panel this_host) (VStr "tasks.add")
                (VInt 5) ∅ world_with_task) as [_ Hpresent].
    destruct (Hpresent "tasks.add" 0 (Task "tasks.add" VNone 0)
                eq_refl eq_refl eq_refl)
      as (w' & record & Hcall & Htasks & Hobjects & _ & _ & Hlog & _).
    exists w', record. split; [done|]. split; [done|]. split; [|done].
    rewrite Hobjects. simpl. apply insert_singleton_eq.
Defined.

Lemma dispatch_keeps_message_witness :
  dicts (dispatch_from_message this_host 0
           (world_with (revoke_X_for "this-host"))).2 !! 0
    = Some (revoke_X_for "this-host").
Proof.
  destruct (dispatch_keeps_message this_host 0
              (world_with (revoke_X_for "this-host"))) as [_ Hkept].
  by apply Hkept.
Defined.

(** ** Further properties of the scheduler *)

(** X1: in every state a scheduler can reach, [next()] yields [None], a
    strictly positive time to wait, or 0; it yields 0 exactly when it
    has promoted an entry, and otherwise it leaves the frontier and the
    ready queue as they were. *)
Theorem next_yields_zero_iff_promoted (calls : list (call * timestamp))
    (clock : timestamp) :
  exists rs s h s',
    run_from_boot calls = Ret (rs, s) /\
    step CallNext clock s = Ret (Yielded h, s') /\
    match h with
    | NoHint => same_contents s s'
    | Sleep z =>
        (z = 0%Z /\
         exists verify,
           promoted (wld s') = promoted (wld s) ++ [(verify, clock)] /\
           verify :: frontier s' ≡ₚ frontier s) \/
        ((0 < z)%Z /\ same_contents s s')
    end.
Proof.
  destruct (run_from_boot_wf calls) as (rs & s & Hrun & Hwf & _).
  exists rs, s.
  destruct (top_or_hint s) as [Htop|Hhint].
  - destruct (frontier s) as [|verify l] eqn:Hfr.
    + eexists _, _. split; [done|].
      split; [by apply step_next_empty|]. by repeat split.
    + destruct (Z.lt_ge_cases clock (ev_eta verify)) as [Hlt|Hge].
      * eexists _, _. split; [done|].
        split; [by apply (step_next_waiting s clock verify l)|].
        right. split; [lia|]. by repeat split.
      * destruct (step_next_due s clock verify l Hwf Htop Hfr Hge)
          as (s' & Hstep & _ & _ & _ & Hperm & Hp & _).
        exists (Sleep 0%Z), s'. split; [done|]. split; [done|].
        left. split; [done|]. exists verify. by rewrite <- Hfr.
  - eexists _, _. split; [done|].
    split; [by apply step_next_after_hint|]. by repeat split.
Qed.

Lemma callbacks_of_length l : length (callbacks_of l) <= length l.
Proof.
  unfold callbacks_of. induction l as [|e l IH]; csimpl; [done|].
  destruct (ev_callback e); csimpl; lia.
Qed.

(** X2: whatever the calls, the callbacks called so far are those of
    the promoted tuples that have one, in the order of promotion and
    once each; so there are never more calls than items put on the
    ready queue. *)
Theorem callbacks_follow_promotions (calls : list (call * timestamp)) :
  exists rs s,
    run_from_boot calls = Ret (rs, s) /\
    called (wld s) = callbacks_of (promoted_events s) /\
    length (called (wld s)) <= length (ready (wld s)).
Proof.
  destruct (run_from_boot_wf calls)
    as (rs & s & Hrun & _ & _ & _ & Hready & Hcalled & _).
  exists rs, s. split; [done|]. split; [done|].
  rewrite Hcalled, Hready, length_fmap. apply callbacks_of_length.
Qed.

(** X3: [empty()] returns [True] exactly when every tuple entered so
    far has been promoted; it never raises and changes nothing. *)
Theorem empty_iff_all_promoted (calls : list (call * timestamp)) :
  exists rs s b,
    run_from_boot calls = Ret (rs, s) /\
    empty (sched s) (wld s) = (Ret b, wld s) /\
    (b = true <->
     length (promoted_events s) = length (entered_from 0 calls)).
Proof.
  destruct (run_from_boot_wf calls)
    as (rs & s & Hrun & Hwf & Hperm & _).
  destruct (wf_frontier s Hwf) as [Hq _].
  exists rs, s. eexists. split; [done|].
  split; [by apply empty_eq|].
  apply Permutation_length in Hperm. rewrite length_app in Hperm.
  destruct (frontier s); simpl in *; split; intros; try done; lia.
Qed.

Lemma effect_in_order s clock c r s' base news :
  effect s clock c r s' -> is_enter c = false ->
  promoted_events s = base ++ news -> promoted_in_order news s ->
  exists news',
    promoted_events s' = base ++ news' /\ promoted_in_order news' s' /\
    ready (wld s') = ready (wld s) ++ (ev_item <$> drop (length news) news')
    /\ take (length news) news' = news.
Proof.
  intros Heff Hcall Hbase [Hsorted Hbelow].
  assert (forall s', same_contents s s' ->
            exists news',
              promoted_events s' = base ++ news' /\
              promoted_in_order news' s' /\
              ready (wld s')
                = ready (wld s) ++ (ev_item <$> drop (length news) news') /\
              take (length news) news' = news) as Hsame.
  { intros s'' (Hf & Hp & Hr & _). exists news.
    unfold promoted_events, promoted_in_order in *.
    rewrite Hf, Hp, Hr, drop_all, firstn_all. simpl.
    by rewrite app_nil_r. }
  destruct Heff
    as [item eta priority callback s' Hf Hp Hr Hc Hn Hd
       | h s' Hs
       | verify s' Hroot Hperm Hmin Hdue Hp Hr Hc Hn
       | s' Hs Hd
       | out s' Hs Hd Hout Hso]; try done; auto.
  exists (news ++ [verify]). split; [|split; [|split]].
  - unfold promoted_events in *. rewrite Hp, fmap_app, Hbase. simpl.
    by rewrite (assoc_L (++)).
  - split.
    + apply StronglySorted_app_2; [|done|repeat constructor].
      intros x y Hx Hy. apply list_elem_of_singleton in Hy as ->.
      apply Hbelow; [done|]. apply list_elem_of_lookup. eauto.
    + intros x y Hx Hy.
      assert (y ∈ frontier s) as Hy' by (rewrite <- Hperm; by right).
      apply elem_of_app in Hx as [Hx|Hx]; [by apply Hbelow|].
      apply list_elem_of_singleton in Hx as ->. by apply Hmin.
  - rewrite Hr, drop_app_length. done.
  - by rewrite take_app_length.
Qed.

Lemma run_in_order calls : forall s rs s' base news,
  wf s -> Forall (fun c => is_enter c.1 = false) calls ->
  promoted_events s = base ++ news -> promoted_in_order news s ->
  run calls s = Ret (rs, s') ->
  exists news',
    promoted_events s' = base ++ news' /\ promoted_in_order news' s' /\
    ready (wld s') = ready (wld s) ++ (ev_item <$> drop (length news) news')
    /\ take (length news) news' = news.
Proof.
  induction calls as [|[c clock] calls IH];
    intros s rs s' base news Hwf Hcalls Hbase Hord Hrun; simpl in Hrun.
  - injection Hrun as _ <-. exists news.
    rewrite drop_all, firstn_all. simpl. by rewrite app_nil_r.
  - apply Forall_cons in Hcalls as [Hc Hcalls]. simpl in Hc.
    destruct (step_wf c clock s Hwf) as (r & s1 & Hstep & Hwf1 & _ & Heff).
    rewrite Hstep in Hrun.
    destruct (run calls s1) as [[rs1 s1']|e] eqn:Hrun1; [|done].
    injection Hrun as _ <-.
    destruct (effect_in_order s clock c r s1 base news Heff Hc Hbase Hord)
      as (news1 & Hbase1 & Hord1 & Hready1 & Htake1).
    destruct (IH s1 rs1 s1' base news1 Hwf1 Hcalls Hbase1 Hord1 Hrun1)
      as (news2 & Hbase2 & Hord2 & Hready2 & Htake2).
    exists news2. split; [done|]. split; [done|].
    assert (length news <= length news1) as Hlen.
    { rewrite <- Htake1, length_take. lia. }
    assert (take (length news) news2 = news) as Htake.
    { rewrite <- Htake1 at 2. rewrite <- Htake2.
      rewrite take_take. f_equal. lia. }
    split; [|done].
    rewrite Hready2, Hready1, <- (assoc_L (++)), <- fmap_app. do 2 f_equal.
    rewrite <- (take_drop (length news1 - length news)
                  (drop (length news) news2)) at 1.
    rewrite drop_drop, take_drop_commute.
    replace (length news + (length news1 - length news))
      with (length news1) by lia.
    by rewrite Htake2.
Qed.

(** X4: over calls that enter nothing, the items go to the ready queue
    in ascending order of (due time, priority), whatever the clocks and
    wherever the iterator was suspended. *)
Theorem ready_queue_in_due_order (calls1 calls2 : list (call * timestamp)) :
  Forall (fun c => is_enter c.1 = false) calls2 ->
  exists rs1 s1 rs2 s2 news,
    run_from_boot calls1 = Ret (rs1, s1) /\
    run calls2 s1 = Ret (rs2, s2) /\
    promoted_events s2 = promoted_events s1 ++ news /\
    ready (wld s2) = ready (wld s1) ++ (ev_item <$> news) /\
    StronglySorted key_le news.
Proof.
  intros Hcalls.
  destruct (run_from_boot_wf calls1) as (rs1 & s1 & Hrun1 & Hwf1 & _).
  destruct (run_wf calls2 s1 Hwf1) as (rs2 & s2 & Hrun2 & _).
  destruct (run_in_order calls2 s1 rs2 s2 (promoted_events s1) [] Hwf1
              Hcalls) as (news & Hbase & [Hsorted _] & Hready & _);
    [by rewrite app_nil_r | | done |].
  { split; [constructor|]. intros x y Hx. by apply elem_of_nil in Hx. }
  exists rs1, s1, rs2, s2, news. split; [done|]. split; [done|].
  split; [done|]. split; [done|]. by apply StronglySorted_key_le.
Qed.

Lemma ready_queue_in_due_order_witness :
  exists rs1 s1 rs2 s2 news,
    run_from_boot two_entries = Ret (rs1, s1) /\
    run four_nexts s1 = Ret (rs2, s2) /\
    promoted_events s2 = promoted_events s1 ++ news /\
    ready (wld s2) = ready (wld s1) ++ (ev_item <$> news) /\
    StronglySorted key_le news.
Proof.
  apply (ready_queue_in_due_order two_entries four_nexts).
  repeat constructor.
Defined.

Lemma drain_head q :
  head (drain (length q) q) = head q.
Proof.
  destruct q as [|x l]; [done|]. simpl length. rewrite drain_S.
  destruct (heappop_cons tuple_le x l) as [l' ->]. done.
Qed.

(** X5: the first tuple [queue] returns is the one the iterator looks
    at next.  After reading [queue], a [next()] that yields a time to
    wait yields that tuple's eta minus the clock, and a [next()] that
    yields 0 has promoted that tuple; a [next()] on an empty snapshot
    yields [None]. *)
Theorem queue_head_is_next (calls : list (call * timestamp))
    (clock clock' : timestamp) :
  exists rs s out s1 h s2,
    run_from_boot calls = Ret (rs, s) /\
    step CallQueue clock s = Ret (Snapshot out, s1) /\
    length out = length (frontier s) /\
    step CallNext clock' s1 = Ret (Yielded h, s2) /\
    match h, out with
    | NoHint, _ => same_contents s s2
    | Sleep z, [] => False
    | Sleep z, verify :: _ =>
        (z = 0%Z /\ (ev_eta verify <= clock')%Z /\
         promoted (wld s2) = promoted (wld s) ++ [(verify, clock')] /\
         ready (wld s2) = ready (wld s) ++ [ev_item verify]) \/
        ((0 < z)%Z /\ z = (ev_eta verify - clock')%Z /\
         same_contents s s2)
    end.
Proof.
  destruct (run_from_boot_wf calls) as (rs & s & Hrun & Hwf & _).
  destruct (wf_frontier s Hwf) as [Hq Hheap].
  destruct (queue_eq _ _ _ Hq Hheap) as (Hqueue & Hperm & Hsorted).
  set (out := drain (length (frontier s)) (frontier s)) in *.
  set (w1 := World (<[fresh (dom (lists (wld s))) := []]> (lists (wld s)))
                   (next_id (wld s)) (ready (wld s)) (called (wld s))
                   (promoted (wld s))) in *.
  set (s1 := System (sched s) (driver s) w1).
  assert (step CallQueue clock s = Ret (Snapshot out, s1)) as Hstep1.
  { simpl. by rewrite Hqueue. }
  assert (frontier s1 = frontier s) as Hfr1.
  { unfold frontier. simpl.
    by rewrite lookup_insert_ne by (by eapply fresh_list_ne). }
  assert (wf s1) as Hwf1.
  { destruct (step_wf CallQueue clock s Hwf) as (r & s' & Hs & Hw & _).
    rewrite Hstep1 in Hs. by injection Hs as _ <-. }
  assert (head out = head (frontier s)) as Hhead by apply drain_head.
  assert (frontier s1 = [] \/
          exists verify l rest,
            frontier s1 = verify :: l /\ out = verify :: rest) as Hcases.
  { rewrite Hfr1. destruct (frontier s) as [|verify l] eqn:Hfr; [by left|].
    right. destruct out as [|x rest]; [done|]. injection Hhead as ->.
    eauto. }
  assert (forall s2, same_contents s1 s2 -> same_contents s s2) as Hsame.
  { intros s2 (H1 & H2 & H3 & H4 & H5). unfold same_contents.
    by rewrite H1, H2, H3, H4, H5. }
  exists rs, s, out, s1.
  destruct (top_or_hint s1) as [Htop|Hhint].
  - destruct Hcases as [Hfr|(verify & l & rest & Hfr & Hout)].
    + eexists _, _. split; [done|]. split; [done|].
      split; [by rewrite Hperm|].
      split; [by apply step_next_empty|]. apply Hsame. by repeat split.
    + destruct (Z.lt_ge_cases clock' (ev_eta verify)) as [Hlt|Hge].
      * eexists _, _. split; [done|]. split; [done|].
        split; [by rewrite Hperm|].
        split; [by apply (step_next_waiting s1 clock' verify l)|].
        rewrite Hout. right. split; [lia|]. split; [done|].
        apply Hsame. by repeat split.
      * destruct (step_next_due s1 clock' verify l Hwf1 Htop Hfr Hge)
          as (s2 & Hstep & _ & _ & _ & _ & Hp & Hr & _).
        exists (Sleep 0%Z), s2. split; [done|]. split; [done|].
        split; [by rewrite Hperm|]. split; [done|].
        rewrite Hout. left. done.
  - eexists _, _. split; [done|]. split; [done|].
    split; [by rewrite Hperm|].
    split; [by apply step_next_after_hint|]. apply Hsame. by repeat split.
Qed.

Lemma iter_next_due self clock w verify l l' :
  lists w !! _queue self = Some (verify :: l) ->
  (ev_eta verify <= clock)%Z ->
  Heapq.heappop tuple_le (verify :: l) = Some (verify, l') ->
  iter_next self clock w =
    (Ret (Sleep 0),
     World (<[_queue self := l']> (lists w))
           (next_id w) (ready w ++ [ev_item verify])
           (called w ++ callbacks_of [verify])
           (promoted w ++ [(verify, clock)])).
Proof.
  intros Hq Hle Hpop. unfold iter_next, bind at 1.
  by rewrite (next_due (Scheduler__iter__ self) clock w verify l l')
    by (done || by left).
Qed.

Lemma iter_next_drive clocks : forall w self l,
  lists w !! _queue self = Some l -> Heapq.heap_inv tuple_le l ->
  length clocks = length l ->
  (forall t e, t ∈ clocks -> e ∈ l -> (ev_eta e <= t)%Z) ->
  exists w' news,
    mapM (iter_next self) clocks w
      = (Ret (replicate (length clocks) (Sleep 0)), w') /\
    lists w' !! _queue self = Some [] /\
    news ≡ₚ l /\
    promoted w' = promoted w ++ zip news clocks /\
    ready w' = ready w ++ (ev_item <$> news) /\
    called w' = called w ++ callbacks_of news.
Proof.
  induction clocks as [|t clocks IH]; intros w self l Hq Hheap Hlen Hdue.
  - destruct l; [|done]. exists w, []. simpl.
    by rewrite !app_nil_r.
  - destruct l as [|verify l]; [done|].
    destruct (HeapqFacts.heappop_spec tuple_le tuple_le_total
                tuple_le_trans (verify :: l) verify Hheap eq_refl)
      as (l' & Hpop & Hheap' & Hperm).
    assert (ev_eta verify <= t)%Z as Hle.
    { apply Hdue; by left. }
    pose proof (iter_next_due self t w verify l l' Hq Hle Hpop) as Hnext.
    destruct (IH (World (<[_queue self := l']> (lists w))
                    (next_id w) (ready w ++ [ev_item verify])
                    (called w ++ callbacks_of [verify])
                    (promoted w ++ [(verify, t)])) self l')
      as (w' & news & Hrun & Hq' & Hp & Hpr & Hr & Hc).
    { simpl. by rewrite lookup_insert_eq. }
    { done. }
    { apply Permutation_length in Hperm. simpl in *. lia. }
    { intros t' e Ht' He. apply Hdue; [by right|].
      rewrite <- Hperm. by right. }
    exists w', (verify :: news). split; [|split; [done|split]].
    + cbn [mapM length replicate]. unfold bind at 1. rewrite Hnext.
      unfold bind at 1. unfold timestamp in *. by rewrite Hrun.
    + by rewrite Hp.
    + simpl in *. rewrite Hpr, Hr, Hc, <- !(assoc_L (++)).
      split; [done|]. split; [done|]. f_equal. unfold callbacks_of.
      simpl. destruct (ev_callback verify); done.
Qed.

(** X6: a caller that takes a new iterator for every [next()] gets a
    promotion from every call: with as many calls as the frontier has
    entries, at clocks that have reached every eta, every call yields
    0, the frontier ends up empty, and the ready queue has received the
    item of every entry once.  (The iterator kept by the worker needs
    two calls for an entry.) *)
Theorem new_iterator_promotes_every_call
    (calls : list (call * timestamp)) (clocks : list timestamp) rs s :
  run_from_boot calls = Ret (rs, s) ->
  length clocks = length (frontier s) ->
  (forall t e, t ∈ clocks -> e ∈ frontier s -> (ev_eta e <= t)%Z) ->
  exists w' news,
    mapM (iter_next (sched s)) clocks (wld s)
      = (Ret (replicate (length clocks) (Sleep 0)), w') /\
    lists w' !! _queue (sched s) = Some [] /\
    news ≡ₚ frontier s /\
    promoted w' = promoted (wld s) ++ zip news clocks /\
    ready w' = ready (wld s) ++ (ev_item <$> news) /\
    called w' = called (wld s) ++ callbacks_of news.
Proof.
  intros Hrun Hlen Hdue.
  destruct (run_from_boot_wf calls) as (rs' & s' & Hrun' & Hwf & _).
  rewrite Hrun in Hrun'. injection Hrun' as _ <-.
  destruct (wf_frontier s Hwf) as [Hq Hheap].
  by apply iter_next_drive.
Qed.

Lemma new_iterator_promotes_every_call_witness :
  exists rs s w' news,
    run_from_boot two_entries = Ret (rs, s) /\
    mapM (iter_next (sched s)) [6000000; 7000000]%Z (wld s)
      = (Ret [Sleep 0; Sleep 0], w') /\
    lists w' !! _queue (sched s) = Some [] /\
    news ≡ₚ frontier s /\
    ready w' = ready (wld s) ++ (ev_item <$> news).
Proof.
  destruct (run_from_boot_wf two_entries) as (rs & s & Hrun & _).
  pose proof (two_entries_frontier rs s Hrun) as Hfr.
  destruct (new_iterator_promotes_every_call two_entries
              [6000000; 7000000]%Z rs s Hrun)
    as (w' & news & Hmap & Hq & Hperm & _ & Hready & _).
  - by rewrite Hfr.
  - intros t e Ht He. rewrite Hfr in He.
    repeat (apply elem_of_cons in Ht as [->|Ht]);
      repeat (apply elem_of_cons in He as [->|He]); simpl; try lia;
      try (by apply elem_of_nil in He); by apply elem_of_nil in Ht.
  - by exists rs, s, w', news.
Defined.

Lemma mktime_timetuple_bounds d :
  (mktime_timetuple d <= d < mktime_timetuple d + 1000000)%Z.
Proof. unfold mktime_timetuple. lia. Qed.

(** X7: an entry entered with an eta is due from the start of the
    second its eta falls in: [enter] stores the eta without its
    microseconds, at most one second before the eta given, and on a
    scheduler that holds nothing else the first [next()] promotes the
    entry as soon as the clock has reached the stored time, even when
    the clock is still before the eta given. *)
Theorem eta_is_cut_to_the_second (item : nat) (d : datetime)
    (priority : Z) (callback : option nat) (clock0 clock : timestamp) :
  (mktime_timetuple d <= clock)%Z ->
  (mktime_timetuple d <= d < mktime_timetuple d + 1000000)%Z /\
  exists s,
    run_from_boot [(CallEnter item (Some d) priority callback, clock0);
                   (CallNext, clock)]
      = Ret ([Entered; Yielded (Sleep 0)], s) /\
    frontier s = [] /\
    ready (wld s) = [item] /\
    promoted (wld s)
      = [(Event 0 (mktime_timetuple d) priority item callback, clock)].
Proof.
  intros Hdue. split; [apply mktime_timetuple_bounds|].
  unfold run_from_boot. rewrite boot_eq. cbn [run step sched wld driver].
  rewrite (enter_eq _ item (Some d) priority callback clock0 _ [])
    by done.
  cbn [lists next_id ready called promoted _queue].
  set (e := Event 0 (mktime_timetuple d) priority item callback).
  change (Heapq.heappush tuple_le [] e) with [e].
  erewrite (next_due _ clock _ e [] []);
    [ | by left | by simpl; rewrite lookup_insert_eq | done | done ].
  eexists. split; [done|]. unfold frontier. simpl.
  by rewrite insert_insert_eq, lookup_insert_eq.
Qed.

Lemma eta_is_cut_to_the_second_witness :
  exists s,
    run_from_boot [(CallEnter 7 (Some 5500000%Z) 0%Z None, 0%Z);
                   (CallNext, 5000000%Z)]
      = Ret ([Entered; Yielded (Sleep 0)], s) /\
    ready (wld s) = [7].
Proof.
  destruct (eta_is_cut_to_the_second 7 5500000%Z 0%Z None 0%Z 5000000%Z)
    as (_ & s & Hrun & _ & Hready & _).
  - vm_compute. discriminate.
  - by exists s.
Defined.

(** X8: a time to wait is the time until the earliest entry of the
    frontier: when [next()] yields a positive number, no entry of the
    frontier is due before the clock has advanced by that number, and
    one entry is due exactly then. *)
Theorem hint_is_time_to_earliest (calls : list (call * timestamp))
    (clock : timestamp) :
  exists rs s h s',
    run_from_boot calls = Ret (rs, s) /\
    step CallNext clock s = Ret (Yielded h, s') /\
    match h with
    | NoHint => True
    | Sleep z =>
        z = 0%Z \/
        ((0 < z)%Z /\
         (exists e, e ∈ frontier s' /\ ev_eta e = (clock + z)%Z) /\
         forall e, e ∈ frontier s' -> (clock + z <= ev_eta e)%Z)
    end.
Proof.
  destruct (run_from_boot_wf calls) as (rs & s & Hrun & Hwf & _).
  exists rs, s.
  destruct (top_or_hint s) as [Htop|Hhint].
  - destruct (frontier s) as [|verify l] eqn:Hfr.
    + eexists _, _. split; [done|].
      split; [by apply step_next_empty|]. done.
    + destruct (Z.lt_ge_cases clock (ev_eta verify)) as [Hlt|Hge].
      * eexists _, _. split; [done|].
        split; [by apply (step_next_waiting s clock verify l)|].
        right. split; [lia|].
        destruct (wf_frontier s Hwf) as [_ Hheap].
        unfold frontier in *. simpl. rewrite Hfr in *. split.
        { exists verify. split; [by left|lia]. }
        intros e He. apply list_elem_of_lookup in He as [i Hi].
        pose proof (HeapqFacts.heap_inv_root_min tuple_le tuple_le_total
                      tuple_le_trans (verify :: l) verify Hheap eq_refl
                      i e Hi) as Hle.
        apply tuple_le_key_le in Hle. unfold key_le in Hle. lia.
      * destruct (step_next_due s clock verify l Hwf Htop Hfr Hge)
          as (s' & Hstep & _).
        exists (Sleep 0%Z), s'. split; [done|]. split; [done|]. by left.
  - eexists _, _. split; [done|].
    split; [by apply step_next_after_hint|]. done.
Qed.

(** ** Further properties of the control plane *)

Ltac frame_split :=
  unfold control_frame; simpl;
  split; [done|]; split; [done|]; split; [done|]; split; [|split].

Lemma control_frame_refl w : control_frame w w.
Proof.
  frame_split.
  - intros t o Ho. by exists o.
  - done.
  - exists []. split; [by rewrite app_nil_r | simpl; lia].
Qed.

Lemma control_frame_dicts f w w' :
  control_frame (set_dicts f w) w' -> control_frame w w'.
Proof. done. Qed.

Lemma control_frame_log w record :
  control_frame w (CWorld (dicts w) (objects w) (tasks w) (revoked w)
                          (log w ++ [record]) (gethostname w)).
Proof.
  frame_split.
  - intros t o Ho. by exists o.
  - done.
  - exists [record]; split; [done | simpl; lia].
Qed.

Lemma control_frame_rate_limit w t o r record :
  objects w !! t = Some o ->
  control_frame w
    (CWorld (dicts w) (<[t := Task (name o) r (other o)]> (objects w))
            (tasks w) (revoked w) (log w ++ [record]) (gethostname w)).
Proof.
  intros Ho. unfold control_frame. simpl.
  split; [done|]. split; [done|]. split; [|split; [|split]].
  - apply dom_insert_lookup_L. eauto.
  - intros t' o' Ho'. destruct (decide (t' = t)) as [->|Hne].
    + rewrite lookup_insert_eq. eexists. split; [done|]. simpl.
      rewrite Ho in Ho'. by injection Ho' as ->.
    + rewrite lookup_insert_ne by done. by exists o'.
  - done.
  - exists [record]; split; [done | simpl; lia].
Qed.

Lemma call_handler_frame panel h kw w :
  control_frame w (call_handler panel h kw w).2.
Proof.
  py_unfold. case_bool_decide; [apply control_frame_refl|].
  destruct h.
  - destruct (kw !! "task_id") as [task_id|]; [|apply control_frame_refl].
    simpl. frame_split.
    + intros t o Ho. by exists o.
    + apply union_subseteq_r.
    + eexists [_]; split; [done | simpl; lia].
  - destruct (kw !! "task_name") as [[| |n]|];
      destruct (kw !! "rate_limit") as [r|]; simpl;
      try apply control_frame_refl.
    destruct (tasks w !! n) as [t|]; [|apply control_frame_refl]. simpl.
    destruct (objects w !! t) as [o|] eqn:Ho; [|apply control_frame_refl].
    simpl. destruct (truthy r); simpl; by apply control_frame_rate_limit.
Qed.

Lemma execute_frame self command kwargs w :
  control_frame w (execute self command kwargs w).2.
Proof.
  unfold execute, call_with_kwargs, get_exposed, try_except, getattr,
    logger_error, logger_log, read_dict, bind, ret, raise, modify.
  destruct command as [|z|attr]; try apply control_frame_refl.
  destruct (Control_attribute attr) as [[[h [[]|]]| |]|]; simpl;
    try apply control_frame_refl; try apply control_frame_log.
  destruct (dicts w !! kwargs) as [kw|]; [|apply control_frame_refl].
  apply call_handler_frame.
Qed.

(** X9: whatever the message, and whether the call returns or raises,
    [dispatch_from_message] keeps the registry's names and task
    objects, changes no task's name or other configuration, removes
    nothing from the set of revoked tasks and appends at most one
    record to the log. *)
Theorem dispatch_changes_are_bounded self message w :
  control_frame w (dispatch_from_message self message w).2.
Proof.
  destruct (dicts w !! message) as [d|] eqn:Hd.
  - rewrite (dispatch_from_message_eq self message w d Hd).
    destruct (d !! "command") as [command|]; simpl;
      [|eapply control_frame_dicts, control_frame_refl].
    destruct (_ || _); simpl;
      [|eapply control_frame_dicts, control_frame_refl].
    eapply control_frame_dicts, execute_frame.
  - unfold dispatch_from_message, dict_copy, bind. rewrite Hd.
    apply control_frame_refl.
Qed.

Lemma call_handler_authority panel h kw w :
  let w' := (call_handler panel h kw w).2 in
  (revoked w' = revoked w \/
   h = Hrevoke /\
   exists task_id,
     kw !! "task_id" = Some task_id /\
     revoked w' = {[task_id]} ∪ revoked w) /\
  (objects w' = objects w \/
   h = Hrate_limit /\
   exists n r t o,
     kw !! "task_name" = Some (VStr n) /\ kw !! "rate_limit" = Some r /\
     tasks w !! n = Some t /\ objects w !! t = Some o /\
     objects w' = <[t := Task (name o) r (other o)]> (objects w)).
Proof.
  py_unfold. case_bool_decide; [by split; left|].
  destruct h.
  - destruct (kw !! "task_id") as [task_id|]; [|by split; left].
    simpl. split; [|by left]. right. split; [done|]. by exists task_id.
  - split.
    { destruct (kw !! "task_name") as [[| |n]|];
        destruct (kw !! "rate_limit") as [r|]; simpl; try by left.
      destruct (tasks w !! n) as [t|]; [|by left]. simpl.
      destruct (objects w !! t) as [o|]; [|by left]. simpl.
      left. by destruct (truthy r). }
    destruct (kw !! "task_name") as [[| |n]|];
      destruct (kw !! "rate_limit") as [r|]; simpl; try by left.
    destruct (tasks w !! n) as [t|] eqn:Ht; [|by left]. simpl.
    destruct (objects w !! t) as [o|] eqn:Ho; [|by left]. simpl.
    right. split; [done|]. exists n, r, t, o.
    by destruct (truthy r).
Qed.

Lemma Control_attribute_method attr f :
  Control_attribute attr = Some (BoundMethod f) ->
  exposed f = Some true /\
  (attr = "revoke" /\ func_code f = Hrevoke \/
   attr = "rate_limit" /\ func_code f = Hrate_limit).
Proof.
  unfold Control_attribute.
  repeat (case_bool_decide; [try done|]); try done.
  - intros [= <-]. split; [done|]. by left.
  - intros [= <-]. split; [done|]. by right.
Qed.

(** X10: a message changes the set of revoked tasks only if its command
    is [revoke], and then by adding the message's task id; it changes a
    task object only if its command is [rate_limit], and then by
    assigning the message's rate limit to the registered task type the
    message names. *)
Theorem dispatch_authority self message w d :
  dicts w !! message = Some d ->
  let w' := (dispatch_from_message self message w).2 in
  (revoked w' = revoked w \/
   d !! "command" = Some (VStr "revoke") /\
   exists task_id,
     d !! "task_id" = Some task_id /\
     revoked w' = {[task_id]} ∪ revoked w) /\
  (objects w' = objects w \/
   d !! "command" = Some (VStr "rate_limit") /\
   exists n r t o,
     d !! "task_name" = Some (VStr n) /\ d !! "rate_limit" = Some r /\
     tasks w !! n = Some t /\ objects w !! t = Some o /\
     objects w' = <[t := Task (name o) r (other o)]> (objects w)).
Proof.
  intros Hd. cbv zeta.
  rewrite (dispatch_from_message_eq self message w d Hd).
  destruct (d !! "command") as [command|] eqn:Hcommand;
    [|by split; left].
  cbv zeta. destruct (_ || _); [|by split; left].
  set (r := fresh (dom (dicts w))).
  set (kw := delete "destination" (delete "command" d)).
  set (w0 := set_dicts <[r := kw]> w).
  unfold execute, call_with_kwargs, get_exposed, try_except, getattr,
    logger_error, logger_log, read_dict, bind, ret, raise, modify.
  destruct command as [|z|attr]; try by split; left.
  destruct (Control_attribute attr) as [[f| |]|] eqn:Hattr;
    try by split; left.
  destruct (Control_attribute_method attr f Hattr) as [Hexposed Hcode].
  rewrite Hexposed. simpl. rewrite lookup_insert_eq.
  pose proof (call_handler_authority (panel self) (func_code f) kw w0)
    as [Hrevoked Hobjects].
  assert (forall key v, key <> "command" -> key <> "destination" ->
            kw !! key = Some v -> d !! key = Some v) as Hkw.
  { intros key v Hc Hdest. unfold kw. by rewrite !lookup_delete_ne. }
  split.
  - destruct Hrevoked as [?|[Hh (task_id & Hid & Hrev)]]; [by left|].
    right. destruct Hcode as [[-> _]|[_ Hf]]; [|congruence].
    split; [done|]. exists task_id. split; [by apply Hkw|done].
  - destruct Hobjects
      as [?|[Hh (n & rl & t & o & Hn & Hr & Ht & Ho & Hobj)]]; [by left|].
    right. destruct Hcode as [[_ Hf]|[-> _]]; [congruence|].
    split; [done|]. exists n, rl, t, o.
    split; [by apply Hkw|]. split; [by apply Hkw|]. done.
Qed.

Lemma dispatch_authority_witness :
  let w := world_with (revoke_X_for "this-host") in
  let w' := (dispatch_from_message this_host 0 w).2 in
  (revoked w' = revoked w \/
   revoke_X_for "this-host" !! "command" = Some (VStr "revoke") /\
   exists task_id,
     revoke_X_for "this-host" !! "task_id" = Some task_id /\
     revoked w' = {[task_id]} ∪ revoked w) /\
  (objects w' = objects w \/
   revoke_X_for "this-host" !! "command" = Some (VStr "rate_limit") /\
   exists n r t o,
     revoke_X_for "this-host" !! "task_name" = Some (VStr n) /\
     revoke_X_for "this-host" !! "rate_limit" = Some r /\
     tasks w !! n = Some t /\ objects w !! t = Some o /\
     objects w' = <[t := Task (name o) r (other o)]> (objects w)).
Proof.
  exact (dispatch_authority this_host 0
           (world_with (revoke_X_for "this-host"))
           (revoke_X_for "this-host") eq_refl).
Defined.

(** X11: only the two methods marked with [@expose] can be run by
    name.  [execute] with any other command runs no handler: either
    it returns [None] after logging one error that carries the command,
    or it raises [AttributeError] or [TypeError] and leaves the state
    as it was. *)
Theorem execute_runs_only_exposed self command kwargs w :
  command <> VStr "revoke" -> command <> VStr "rate_limit" ->
  execute self command kwargs w =
    (Ret VNone,
     CWorld (dicts w) (objects w) (tasks w) (revoked w)
            (log w ++ [LogRecord ERROR "No such control command: %s"
                                 [command]])
            (gethostname w)) \/
  exists e, (e = AttributeError \/ e = TypeError) /\
            execute self command kwargs w = (Raise e, w).
Proof.
  intros Hrevoke Hrate.
  unfold execute, call_with_kwargs, get_exposed, try_except, getattr,
    logger_error, logger_log, read_dict, bind, ret, raise, modify.
  destruct command as [|z|attr]; try (right; exists TypeError; by auto).
  destruct (Control_attribute attr) as [[f| |]|] eqn:Hattr; simpl.
  - destruct (Control_attribute_method attr f Hattr)
      as [_ [[-> _]|[-> _]]]; done.
  - by left.
  - right. exists AttributeError. by auto.
  - by left.
Qed.

Lemma execute_runs_only_exposed_witness :
  execute this_host (VStr "shutdown") 0 (world_with ∅) =
    (Ret VNone,
     CWorld {[ 0 := ∅ ]} ∅ ∅ ∅
            [LogRecord ERROR "No such control command: %s"
                       [VStr "shutdown"]]
            "this-host") \/
  exists e, (e = AttributeError \/ e = TypeError) /\
            execute this_host (VStr "shutdown") 0 (world_with ∅)
              = (Raise e, world_with ∅).
Proof.
  exact (execute_runs_only_exposed this_host (VStr "shutdown") 0
           (world_with ∅) ltac:(discriminate) ltac:(discriminate)).
Defined.

(** X12: a command whose keyword arguments do not fit the method's
    parameters ([revoke] without [task_id], [rate_limit] without
    [task_name] or without [rate_limit], or any of the two with a key
    [self]) raises [TypeError]; nothing is revoked, no rate limit is
    set and nothing is logged. *)
Theorem execute_with_wrong_arguments self command kwargs w kw :
  dicts w !! kwargs = Some kw ->
  (command = VStr "revoke" /\
   (kw !! "task_id" = None \/ is_Some (kw !! "self"))) \/
  (command = VStr "rate_limit" /\
   (kw !! "task_name" = None \/ kw !! "rate_limit" = None \/
    is_Some (kw !! "self"))) ->
  execute self command kwargs w = (Raise TypeError, w).
Proof.
  intros Hkw Hcases. py_unfold.
  destruct Hcases as [[-> Hargs]|[-> Hargs]]; simpl; rewrite Hkw.
  - case_bool_decide as Hself; [done|].
    destruct Hargs as [->|?]; done.
  - case_bool_decide as Hself; [done|].
    destruct Hargs as [->|[->|?]]; try done.
    by destruct (kw !! "task_name").
Qed.

Lemma execute_with_wrong_arguments_witness :
  execute this_host (VStr "revoke") 0 (world_with {[ "id" := VStr "X" ]})
    = (Raise TypeError, world_with {[ "id" := VStr "X" ]}).
Proof.
  apply (execute_with_wrong_arguments this_host (VStr "revoke") 0
           (world_with {[ "id" := VStr "X" ]}) {[ "id" := VStr "X" ]}).
  - reflexivity.
  - left. split; [reflexivity|]. left. reflexivity.
Defined.

(** X13: a [rate_limit] message for this worker, from the message to
    the registry.  For a registered task type the call returns [None],
    the rate limit of that task type is the message's, and one warning
    is logged: the rate limits are reported as disabled exactly when
    the new value is false ([None], 0, the empty string), otherwise the
    new value is reported.  For a task type that is not registered the
    call returns [None] and only the copy of the message was made. *)
Theorem dispatch_rate_limit self message w d n r :
  dicts w !! message = Some d ->
  d !! "command" = Some (VStr "rate_limit") ->
  addressed_to self d = true ->
  d !! "self" = None ->
  d !! "task_name" = Some (VStr n) ->
  d !! "rate_limit" = Some r ->
  let w0 :=
    set_dicts <[fresh (dom (dicts w))
                  := delete "destination" (delete "command" d)]> w in
  (tasks w !! n = None ->
   dispatch_from_message self message w = (Ret VNone, w0)) /\
  (forall t o,
     tasks w !! n = Some t -> objects w !! t = Some o ->
     dispatch_from_message self message w =
       (Ret VNone,
        CWorld (dicts w0)
               (<[t := Task (name o) r (other o)]> (objects w))
               (tasks w) (revoked w)
               (log w ++
                  [if truthy r
                   then LogRecord WARNING
                          "New rate limit for tasks of type %s: %s."
                          [VStr n; r]
                   else LogRecord WARNING
                          "Disabled rate limits for tasks of type %s"
                          [VStr n]])
               (gethostname w))).
Proof.
  intros Hd Hcommand Haddr Hself Hname Hrate w0.
  pose proof (dispatch_from_message_eq self message w d Hd) as Heq.
  rewrite Hcommand in Heq. cbv zeta in Heq. fold w0 in Heq.
  unfold addressed_to in Haddr. cbv zeta in Haddr. rewrite Haddr in Heq.
  rewrite Heq. clear Heq.
  set (kw := delete "destination" (delete "command" d)) in *.
  assert (kw !! "self" = None) as Hkself
    by (unfold kw; by rewrite !lookup_delete_ne).
  assert (kw !! "task_name" = Some (VStr n)) as Hkname
    by (unfold kw; by rewrite !lookup_delete_ne).
  assert (kw !! "rate_limit" = Some r) as Hkrate
    by (unfold kw; by rewrite !lookup_delete_ne).
  assert (dicts w0 !! fresh (dom (dicts w)) = Some kw) as Hkw
    by (unfold w0, set_dicts; simpl; by rewrite lookup_insert_eq).
  split.
  - intros Ht. py_unfold. simpl. rewrite lookup_insert_eq.
    rewrite Hkself, Hkname, Hkrate. simpl. by rewrite Ht.
  - intros t o Ht Ho. py_unfold. simpl. rewrite lookup_insert_eq.
    rewrite Hkself, Hkname, Hkrate. simpl. rewrite Ht. simpl.
    rewrite Ho. simpl. by destruct (truthy r).
Qed.

Lemma dispatch_rate_limit_witness :
  let d : gmap string value :=
    {[ "command" := VStr "rate_limit"; "task_name" := VStr "tasks.add";
       "rate_limit" := VInt 0 ]} in
  let w := CWorld {[ 0 := d ]} {[ 0 := Task "tasks.add" (VInt 5) 0 ]}
                  {[ "tasks.add" := 0 ]} ∅ [] "this-host" in
  exists w',
    dispatch_from_message this_host 0 w = (Ret VNone, w') /\
    objects w' = <[0 := Task "tasks.add" (VInt 0) 0]> (objects w) /\
    log w' = [LogRecord WARNING "Disabled rate limits for tasks of type %s"
                        [VStr "tasks.add"]].
Proof.
  intros d w.
  destruct (dispatch_rate_limit this_host 0 w d "tasks.add" (VInt 0)
              eq_refl eq_refl eq_refl eq_refl eq_refl eq_refl)
    as [_ Hregistered].
  rewrite (Hregistered 0 (Task "tasks.add" (VInt 5) 0) eq_refl eq_refl).
  eexists. split; [reflexivity|]. split; reflexivity.
Defined.

(** X14: a dispatcher made without a hostname (or with a false one)
    keeps that value as its own name, while its panel takes the name of
    the machine.  Such a dispatcher drops every message that has a
    destination, the machine's own name included: the call returns
    [None] and only the copy of the message was made. *)
Theorem dispatcher_without_hostname hostname message w d command
    destination :
  truthy hostname = false ->
  dicts w !! message = Some d ->
  d !! "command" = Some command ->
  d !! "destination" = Some destination ->
  truthy destination = true ->
  exists self,
    ControlDispatch__init__ hostname w = (Ret self, w) /\
    panel_hostname (panel self) = VStr (gethostname w) /\
    dispatch_from_message self message w =
      (Ret VNone,
       set_dicts <[fresh (dom (dicts w))
                     := delete "destination" (delete "command" d)]> w).
Proof.
  intros Hfalse Hd Hcommand Hdest Htrue.
  unfold ControlDispatch__init__, Control__init__, bind, ret, get.
  rewrite Hfalse. eexists. split; [done|]. split; [done|].
  rewrite (dispatch_from_message_eq _ message w d Hd).
  rewrite Hcommand, Hdest. simpl. rewrite Htrue. simpl.
  unfold value_eqb. rewrite bool_decide_eq_false_2; [done|].
  intros ->. congruence.
Qed.

Lemma dispatcher_without_hostname_witness :
  exists self,
    ControlDispatch__init__ VNone (world_with (revoke_X_for "this-host"))
      = (Ret self, world_with (revoke_X_for "this-host")) /\
    panel_hostname (panel self) = VStr "this-host" /\
    (dispatch_from_message self 0
       (world_with (revoke_X_for "this-host"))).1 = Ret VNone /\
    revoked (dispatch_from_message self 0
               (world_with (revoke_X_for "this-host"))).2 = ∅.
Proof.
  destruct (dispatcher_without_hostname VNone 0
              (world_with (revoke_X_for "this-host"))
              (revoke_X_for "this-host") (VStr "revoke")
              (VStr "this-host") eq_refl eq_refl eq_refl eq_refl eq_refl)
    as (self & Hinit & Hpanel & Hdispatch).
  exists self. split; [done|]. split; [done|]. by rewrite Hdispatch.
Defined.

(** X15: a revoke message delivered twice.  The caller's message is
    intact after the first delivery, so the second one runs the same
    command: the task id is in the set of revoked tasks after the
    first, the second leaves the set as it is, and each delivery logs
    its own warning. *)
Theorem revoke_delivered_twice self message w d task_id :
  dicts w !! message = Some d ->
  d !! "command" = Some (VStr "revoke") ->
  addressed_to self d = true ->
  d !! "self" = None ->
  d !! "task_id" = Some task_id ->
  exists w1 w2,
    dispatch_from_message self message w = (Ret VNone, w1) /\
    dispatch_from_message self message w1 = (Ret VNone, w2) /\
    task_id ∈ revoked w1 /\
    revoked w2 = revoked w1 /\
    log w2 = log w ++ [LogRecord WARNING "Task %s revoked." [task_id];
                       LogRecord WARNING "Task %s revoked." [task_id]].
Proof.
  intros Hd Hcommand Haddr Hself Hid.
  unfold addressed_to in Haddr. cbv zeta in Haddr.
  set (kw := delete "destination" (delete "command" d)).
  assert (kw !! "self" = None) as Hkself
    by (unfold kw; by rewrite !lookup_delete_ne).
  assert (kw !! "task_id" = Some task_id) as Hkid
    by (unfold kw; by rewrite !lookup_delete_ne).
  assert (forall w, dicts w !! message = Some d ->
            dispatch_from_message self message w =
              (Ret VNone,
               CWorld (<[fresh (dom (dicts w)) := kw]> (dicts w))
                      (objects w) (tasks w) ({[task_id]} ∪ revoked w)
                      (log w ++ [LogRecord WARNING "Task %s revoked."
                                           [task_id]])
                      (gethostname w))) as Hone.
  { intros w0 Hd0.
    rewrite (dispatch_from_message_eq self message w0 d Hd0).
    rewrite Hcommand. cbv zeta. rewrite Haddr. fold kw.
    rewrite (execute_revoke self _ _ kw task_id); [done| |done|done].
    unfold set_dicts. simpl. by rewrite lookup_insert_eq. }
  eexists _, _. split; [by apply Hone|]. split.
  - apply Hone. simpl.
    rewrite lookup_insert_ne by (by eapply fresh_dict_ne). done.
  - simpl. split; [by apply elem_of_union_l, elem_of_singleton|].
    split; [by rewrite (assoc_L (∪)), (idemp_L (∪))|].
    by rewrite <- (assoc_L (++)).
Qed.

Lemma revoke_delivered_twice_witness :
  exists w1 w2,
    dispatch_from_message this_host 0
      (world_with (revoke_X_for "this-host")) = (Ret VNone, w1) /\
    dispatch_from_message this_host 0 w1 = (Ret VNone, w2) /\
    VStr "X" ∈ revoked w1 /\
    revoked w2 = revoked w1 /\
    log w2 = [LogRecord WARNING "Task %s revoked." [VStr "X"];
              LogRecord WARNING "Task %s revoked." [VStr "X"]].
Proof.
  exact (revoke_delivered_twice this_host 0
           (world_with (revoke_X_for "this-host"))
           (revoke_X_for "this-host") (VStr "X")
           eq_refl eq_refl eq_refl eq_refl eq_refl).
Defined.

(** ** The task decorators *)

Lemma fresh_store_ne (w : Decorators.store) r m :
  w !! r = Some m -> fresh (dom w) <> r.
Proof.
  intros Hr Heq. apply (is_fresh (dom w)). rewrite Heq.
  apply elem_of_dom. eauto.
Qed.

Lemma task_eq kwargs (w : Decorators.store) :
  Decorators.task kwargs w =
    (Ret {| Decorators.options := fresh (dom w) |},
     <[fresh (dom w) := kwargs]> w).
Proof. reflexivity. Qed.

(** One application of a decorator whose options are [m]: ["base"] is
    popped from the decorator's own dict object, and the class
    dictionary is a new dict object. *)
Lemma _create_task_cls_eq cr self f (w : Decorators.store) m :
  w !! Decorators.options self = Some m ->
  let w1 := <[Decorators.options self := delete "base" m]> w in
  let cls_dict :=
    Decorators.cls_dict
      (Decorators.task_class f Decorators.Task (delete "base" m)) in
  Decorators._create_task_cls cr self f w =
    (match default (Decorators.OClass Decorators.Task) (m !! "base") with
     | Decorators.OClass c =>
         Decorators.construct cr
           (Decorators.task_class f c (delete "base" m))
     | _ => Raise TypeError
     end,
     <[fresh (dom w1) := cls_dict]> w1).
Proof.
  intros Hm w1 cls_dict.
  assert (Decorators.dict_pop_default (Decorators.options self) "base"
            (Decorators.OClass Decorators.Task) w
          = (Ret (default (Decorators.OClass Decorators.Task)
                          (m !! "base")), w1)) as Hpop.
  { unfold Decorators.dict_pop_default, Decorators.read_dict, bind, ret,
      modify. rewrite Hm.
    destruct (m !! "base") as [v|] eqn:Hbase; [done|]. simpl.
    unfold w1. rewrite delete_id by done. by rewrite insert_id. }
  unfold Decorators._create_task_cls. unfold bind at 1. rewrite Hpop.
  unfold Decorators.dict_copy, Decorators.dict_new, Decorators.dict_setitem,
    Decorators.type_call, Decorators.read_dict, bind, ret, raise, modify.
  replace (w1 !! Decorators.options self) with (Some (delete "base" m))
    by (unfold w1; by rewrite lookup_insert_eq).
  rewrite !lookup_insert_eq, !insert_insert_eq.
  by destruct (default _ _) as [| | |c|].
Qed.

Lemma task_class_dict f base m :
  let cls := Decorators.task_class f base m in
  Decorators.cls_name cls = Decorators.__name__ f /\
  Decorators.cls_base cls = base /\
  Decorators.cls_dict cls !! "run"
    = Some (Decorators.ORun
              {| Decorators.run__name__ := Decorators.__name__ f;
                 Decorators.run_argspec := Decorators.func_argspec f;
                 Decorators.run_fun := f |}) /\
  Decorators.cls_dict cls !! "__module__"
    = Some (Decorators.OStr (Decorators.__module__ f)) /\
  forall k, k <> "run" -> k <> "__module__" ->
            Decorators.cls_dict cls !! k = m !! k.
Proof.
  simpl. split; [done|]. split; [done|].
  split; [by rewrite lookup_insert_ne, lookup_insert_eq|].
  split; [by rewrite lookup_insert_eq|].
  intros k Hrun Hmodule. by rewrite !lookup_insert_ne.
Qed.

(** X16: the class a new decorator [task(...)] makes of a function.
    Its name is the function's, its base is the option [base] or
    [Task]; [run] is the wrapper of the function, carrying its name and
    argument specification, and [__module__] is the function's module,
    whatever the options say under these names; [base] is no attribute
    of the class and every other option is one.  A [base] that is not
    a class makes the application raise [TypeError].  No dict object
    that existed before is changed. *)
Theorem task_decorator_class
    (constructor_raises : Decorators.class_desc -> option exn)
    (kwargs : gmap string Decorators.object) (f : Decorators.pyfunction)
    (w : Decorators.store) :
  exists dec w1 r w2,
    Decorators.task kwargs w = (Ret dec, w1) /\
    Decorators._create_task_cls constructor_raises dec f w1 = (r, w2) /\
    w ⊆ w2 /\
    match default (Decorators.OClass Decorators.Task) (kwargs !! "base") with
    | Decorators.OClass c =>
        exists cls,
          r = Decorators.construct constructor_raises cls /\
          Decorators.cls_name cls = Decorators.__name__ f /\
          Decorators.cls_base cls = c /\
          Decorators.cls_dict cls !! "run"
            = Some (Decorators.ORun
                      {| Decorators.run__name__ := Decorators.__name__ f;
                         Decorators.run_argspec := Decorators.func_argspec f;
                         Decorators.run_fun := f |}) /\
          Decorators.cls_dict cls !! "__module__"
            = Some (Decorators.OStr (Decorators.__module__ f)) /\
          Decorators.cls_dict cls !! "base" = None /\
          forall k, k <> "run" -> k <> "__module__" -> k <> "base" ->
                    Decorators.cls_dict cls !! k = kwargs !! k
    | _ => r = Raise TypeError
    end.
Proof.
  set (o := fresh (dom w)).
  set (w1 := <[o := kwargs]> w).
  pose proof (_create_task_cls_eq constructor_raises
                {| Decorators.options := o |} f w1 kwargs) as Heq.
  simpl in Heq. unfold w1 in Heq at 1. rewrite lookup_insert_eq in Heq.
  specialize (Heq eq_refl).
  eexists _, _, _, _. split; [apply task_eq|]. fold o w1.
  split; [exact Heq|]. split.
  - unfold w1. rewrite insert_insert_eq.
    etransitivity; [|apply insert_subseteq, not_elem_of_dom, is_fresh].
    apply insert_subseteq, not_elem_of_dom, is_fresh.
  - destruct (default _ _) as [| | |c|]; try done.
    exists (Decorators.task_class f c (delete "base" kwargs)).
    destruct (task_class_dict f c (delete "base" kwargs))
      as (Hname & Hbase & Hrun & Hmodule & Hother).
    split; [done|]. split; [done|]. split; [done|]. split; [done|].
    split; [done|]. split.
    + rewrite Hother by done. apply lookup_delete_eq.
    + intros k Hk1 Hk2 Hk3. rewrite Hother by done.
      by rewrite lookup_delete_ne.
Qed.

(** X17: a decorator applied a second time.  The first application
    has popped [base] from the options the decorator keeps, so the
    class of the second application derives from [Task], whatever base
    the decorator was made with and whether the first application
    returned or raised; its other attributes are as in a first
    application. *)
Theorem task_decorator_applied_twice
    (constructor_raises : Decorators.class_desc -> option exn)
    (kwargs : gmap string Decorators.object)
    (f g : Decorators.pyfunction) (w : Decorators.store) :
  exists dec w1 r1 w2 w3,
    Decorators.task kwargs w = (Ret dec, w1) /\
    Decorators._create_task_cls constructor_raises dec f w1 = (r1, w2) /\
    Decorators._create_task_cls constructor_raises dec g w2 =
      (Decorators.construct constructor_raises
         (Decorators.task_class g Decorators.Task (delete "base" kwargs)),
       w3).
Proof.
  set (o := fresh (dom w)).
  set (w1 := <[o := kwargs]> w).
  pose proof (_create_task_cls_eq constructor_raises
                {| Decorators.options := o |} f w1 kwargs) as Heq1.
  simpl in Heq1. unfold w1 in Heq1 at 1. rewrite lookup_insert_eq in Heq1.
  specialize (Heq1 eq_refl).
  set (w1' := <[o := delete "base" kwargs]> w1) in *.
  set (w2 := <[fresh (dom w1') := _]> w1') in *.
  assert (w2 !! o = Some (delete "base" kwargs)) as Ho.
  { unfold w2. rewrite lookup_insert_ne.
    - unfold w1'. by rewrite lookup_insert_eq.
    - eapply fresh_store_ne. unfold w1'. by rewrite lookup_insert_eq. }
  pose proof (_create_task_cls_eq constructor_raises
                {| Decorators.options := o |} g w2 (delete "base" kwargs) Ho)
    as Heq2.
  cbv zeta in Heq2. rewrite lookup_delete_eq in Heq2. simpl in Heq2.
  rewrite delete_delete_eq in Heq2.
  eexists _, _, _, _, _. split; [apply task_eq|]. fold o w1.
  split; [exact Heq1|]. exact Heq2.
Qed.

(** X18: [periodic_task(...)] makes a decorator whose first
    application derives the class from [PeriodicTask], whatever [base]
    the caller gave, and whose second application derives it from
    [Task]. *)
Theorem periodic_task_applications
    (constructor_raises : Decorators.class_desc -> option exn)
    (kwargs : gmap string Decorators.object)
    (f g : Decorators.pyfunction) (w : Decorators.store) :
  exists dec w1 w2 w3,
    Decorators.periodic_task kwargs w = (Ret dec, w1) /\
    Decorators._create_task_cls constructor_raises dec f w1 =
      (Decorators.construct constructor_raises
         (Decorators.task_class f Decorators.PeriodicTask
            (delete "base" kwargs)),
       w2) /\
    Decorators._create_task_cls constructor_raises dec g w2 =
      (Decorators.construct constructor_raises
         (Decorators.task_class g Decorators.Task (delete "base" kwargs)),
       w3).
Proof.
  set (p := fresh (dom w)).
  set (m := <["base" := Decorators.OClass Decorators.PeriodicTask]> kwargs).
  set (w0 := <[p := m]> w).
  set (o := fresh (dom w0)).
  set (w1 := <[o := m]> w0).
  assert (Decorators.periodic_task kwargs w
          = (Ret {| Decorators.options := o |}, w1)) as Hdec.
  { unfold Decorators.periodic_task, Decorators.task, Decorators.dict_new,
      Decorators.dict_setitem, Decorators.read_dict, bind, ret, modify.
    fold p. rewrite lookup_insert_eq, insert_insert_eq. fold m w0.
    unfold w0 at 1. by rewrite lookup_insert_eq. }
  assert (delete "base" m = delete "base" kwargs) as Hm
    by (unfold m; apply delete_insert_eq).
  pose proof (_create_task_cls_eq constructor_raises
                {| Decorators.options := o |} f w1 m) as Heq1.
  simpl in Heq1. unfold w1 in Heq1 at 1. rewrite lookup_insert_eq in Heq1.
  specialize (Heq1 eq_refl).
  replace (m !! "base")
    with (Some (Decorators.OClass Decorators.PeriodicTask)) in Heq1
    by (unfold m; by rewrite lookup_insert_eq).
  simpl in Heq1. rewrite Hm in Heq1.
  set (w1' := <[o := delete "base" kwargs]> w1) in *.
  set (w2 := <[fresh (dom w1') := _]> w1') in *.
  assert (w2 !! o = Some (delete "base" kwargs)) as Ho.
  { unfold w2. rewrite lookup_insert_ne.
    - unfold w1'. by rewrite lookup_insert_eq.
    - eapply fresh_store_ne. unfold w1'. by rewrite lookup_insert_eq. }
  pose proof (_create_task_cls_eq constructor_raises
                {| Decorators.options := o |} g w2 (delete "base" kwargs) Ho)
    as Heq2.
  cbv zeta in Heq2. rewrite lookup_delete_eq in Heq2. simpl in Heq2.
  rewrite delete_delete_eq in Heq2.
  eexists _, _, _, _. split; [exact Hdec|].
  split; [exact Heq1|]. exact Heq2.
Qed.
